(** * The console relay's value serializer ([serializeForPostMessage])

    A shallow embedding of [src/main.js], lines 13-148: the recursive
    serializer that turns an arbitrary value of the sandboxed page into a
    tree fit for [postMessage], with its depth guard, its cycle-tracking
    [WeakSet] and its two layers of [try]/[catch].  (The second source file
    is an earlier variant of the same script, without the depth guard.)

    The page's objects live in a heap indexed by identity.  What the
    serializer observes of an object is modelled, nothing more: the outcome
    of [instanceof], [typeof] and [Array.isArray], its own property names,
    the completion of a property read (a getter may throw, and may throw
    anything), and the completion of the host methods the code calls
    ([toISOString], [toString], the conversion to a string).  A read always
    completes the same way: getters have no effect on the heap, and proxies
    are left out.  Numbers are IEEE 754 doubles; the two depths, small
    counters in every call the script makes, are integers. *)

From Stdlib Require Import ZArith String List Bool Lia.
From Stdlib Require Import Floats.
From stdpp Require Import base gmap sets list strings pretty.

Set Warnings "-register-all".
Open Scope string_scope.

(** ** Values *)

(** The identity of an object (what [WeakSet] and [===] compare). *)
Definition addr := nat.

Inductive value :=
| VUndefined
| VNull
| VBoolean (b : bool)
| VNumber (x : float)
| VString (s : string)
| VBigInt (n : Z)
| VSymbol (description : option string)
| VObject (a : addr).

(** What a [catch (e)] clause receives. *)
Inductive thrown :=
| ThrowValue (v : value)               (* [throw v] executed by page code *)
| NativeError (name message : string). (* a fresh error object with this name and
                                          message, made by the engine or by a
                                          [throw new Error(message)] *)

Inductive completion (A : Type) :=
| Normal (a : A)
| Throw (e : thrown).
Arguments Normal {A} a.
Arguments Throw {A} e.

Definition cbind {A B} (c : completion A) (k : A -> completion B) : completion B :=
  match c with
  | Normal a => k a
  | Throw e => Throw e
  end.

Notation "'let?' x ':=' c 'in' k" := (cbind c (fun x => k))
  (at level 10, x name, c at level 100, k at level 200).

(** ** Objects *)

(** A property is a data property or an accessor; of an accessor only the
    completion of its getter matters here. *)
Inductive slot :=
| Data (v : value)
| Getter (r : completion value).

Inductive kind :=
| KPromise                               (* instanceof Promise *)
| KDate (toISOString : completion string) (* instanceof Date, and what toISOString() does *)
| KRegExp                                (* instanceof RegExp *)
| KNode (element : bool)                 (* instanceof Node; [element]: instanceof Element *)
| KFunction (toString : completion string) (* typeof 'function', and what toString() does *)
| KArray (items : list (option slot))    (* Array.isArray; [None] is a hole *)
| KOrdinary.                             (* any other object *)

Record object := {
  o_error : bool;                       (* instanceof Error *)
  o_kind : kind;
  o_own : list (string * slot);         (* own string-keyed properties, in
                                           getOwnPropertyNames order; for an
                                           array, those besides indices and length *)
  o_inherited : list (string * slot);   (* properties found along the prototype chain *)
  o_string : completion string          (* the completion of converting the object
                                           to a string, by String(o) or by + *)
}.

Definition heap := addr -> object.

Fixpoint assoc {A} (key : string) (l : list (string * A)) : option A :=
  match l with
  | [] => None
  | (k, x) :: rest => if String.eqb k key then Some x else assoc key rest
  end.

Definition number_of_nat (n : nat) : float :=
  PrimFloat.of_uint63 (Uint63.of_Z (Z.of_nat n)).

Fixpoint index_slots (i : nat) (items : list (option slot)) : list (string * slot) :=
  match items with
  | [] => []
  | None :: rest => index_slots (S i) rest
  | Some s :: rest => (pretty i, s) :: index_slots (S i) rest
  end.

(** All own properties: an array's indices and [length] come first. *)
Definition own_slots (o : object) : list (string * slot) :=
  match o_kind o with
  | KArray items =>
      index_slots 0 items
        ++ ("length", Data (VNumber (number_of_nat (length items)))) :: o_own o
  | _ => o_own o
  end.

Definition read (s : slot) : completion value :=
  match s with
  | Data v => Normal v
  | Getter r => r
  end.

(** [o[key]]: own properties shadow inherited ones; a missing property
    reads as [undefined]. *)
Definition get (o : object) (key : string) : completion value :=
  match assoc key (own_slots o) with
  | Some s => read s
  | None =>
      match assoc key (o_inherited o) with
      | Some s => read s
      | None => Normal VUndefined
      end
  end.

(** ToBoolean. *)
Definition truthy (v : value) : bool :=
  match v with
  | VUndefined | VNull => false
  | VBoolean b => b
  | VNumber x => negb (PrimFloat.is_zero x || PrimFloat.is_nan x)
  | VString s => negb (String.eqb s "")
  | VBigInt n => negb (n =? 0)%Z
  | VSymbol _ | VObject _ => true
  end.

(** ** Transport values *)

(** What the serializer builds: fresh plain objects and arrays, whose leaves
    are JavaScript values stored as they are.  A string the serializer makes
    is the leaf [TVal (VString s)]; a leaf [TVal (VObject a)] is a page
    object placed in the result unserialized.  The fields of an object are
    listed as they were created; the properties stated below read them by
    key. *)
Inductive tvalue :=
| TVal (v : value)
| TEmpty                                   (* a hole of a result array *)
| TArr (items : list tvalue)
| TObj (fields : list (string * tvalue)).

Definition TStr (s : string) : tvalue := TVal (VString s).

Fixpoint update {A} (key : string) (x : A) (fields : list (string * A)) : list (string * A) :=
  match fields with
  | [] => [(key, x)]
  | (k, y) :: rest =>
      if String.eqb k key then (k, x) :: rest else (k, y) :: update key x rest
  end.

(** [obj[key] = x] on an object made by a literal: the field is created or
    overwritten, except that the key [__proto__] reaches the inherited
    setter and leaves the own fields as they are. *)
Definition assign (fields : list (string * tvalue)) (key : string) (x : tvalue)
  : list (string * tvalue) :=
  if String.eqb key "__proto__" then fields else update key x fields.

(** Reading a field of a result object. *)
Definition field (key : string) (t : tvalue) : option tvalue :=
  match t with
  | TObj fields => assoc key fields
  | _ => None
  end.

(** ** The serializer's state: the [seen] WeakSet, failures, fuel *)

Definition seen_set := gset addr.

(** A computation reads and updates [seen], and completes normally or by a
    throw; [None] is reserved for an exhausted recursion budget. *)
Definition M (A : Type) : Type := seen_set -> option (completion A * seen_set).

Definition ret {A} (a : A) : M A := fun seen => Some (Normal a, seen).

Definition lift {A} (c : completion A) : M A := fun seen => Some (c, seen).

Definition bind {A B} (m : M A) (k : A -> M B) : M B :=
  fun seen =>
    match m seen with
    | None => None
    | Some (Normal a, seen') => k a seen'
    | Some (Throw e, seen') => Some (Throw e, seen')
    end.

(** [try { m } catch (e) { ... }]: the completion of [m] becomes a value. *)
Definition try_ {A} (m : M A) : M (completion A) :=
  fun seen =>
    match m seen with
    | None => None
    | Some (c, seen') => Some (Normal c, seen')
    end.

Definition seen_has (a : addr) : M bool :=
  fun seen => Some (Normal (bool_decide (a ∈ seen)), seen).

Definition seen_add (a : addr) : M unit :=
  fun seen => Some (Normal tt, {[a]} ∪ seen).

Notation "'let*' x ':=' m 'in' k" := (bind m (fun x => k))
  (at level 10, x name, m at level 100, k at level 200).
Notation "m ';;' k" := (bind m (fun _ => k))
  (at level 100, k at level 200, right associativity).

(** ** The serializer *)

Section Serializer.

(** Number::toString, the host's printer of numbers. *)
Variable Number_toString : float -> string.

Variable h : heap.

(** [v[key]] for any value. A primitive reads through its wrapper
    prototype; with the built-in prototypes intact none of the keys read
    by this code ([message], [name], and [constructor] followed by a
    [name] equal to 'Error') is found there with an effect on the
    outcome, so the read is modelled as [undefined]. *)
Definition get_value (v : value) (key : string) : completion value :=
  match v with
  | VUndefined =>
      Throw (NativeError "TypeError"
               ("Cannot read properties of undefined (reading '" ++ key ++ "')"))
  | VNull =>
      Throw (NativeError "TypeError"
               ("Cannot read properties of null (reading '" ++ key ++ "')"))
  | VObject a => get (h a) key
  | _ => Normal VUndefined
  end.

Definition getOwnPropertyNames (v : value) : list string :=
  match v with
  | VObject a => map fst (own_slots (h a))
  | _ => []
  end.

(** ToString, as applied by [+] to an operand next to a string. *)
Definition ToString (v : value) : completion string :=
  match v with
  | VUndefined => Normal "undefined"
  | VNull => Normal "null"
  | VBoolean b => Normal (if b then "true" else "false")
  | VNumber x => Normal (Number_toString x)
  | VString s => Normal s
  | VBigInt n => Normal (pretty n)
  | VSymbol _ => Throw (NativeError "TypeError" "Cannot convert a Symbol value to a string")
  | VObject a => o_string (h a)
  end.

(** [String(v)]: as ToString, but a symbol is described. *)
Definition String_ (v : value) : completion string :=
  match v with
  | VSymbol d => Normal ("Symbol(" ++ default "" d ++ ")")
  | _ => ToString v
  end.

(** [e.message] in a catch clause. *)
Definition thrown_message (e : thrown) : completion value :=
  match e with
  | NativeError _ message => Normal (VString message)
  | ThrowValue v => get_value v "message"
  end.

Definition instanceof_Error (v : value) : bool :=
  match v with
  | VObject a => o_error (h a)
  | _ => false
  end.

(** Line 47: [value instanceof Error ||
    (value && value.constructor && value.constructor.name === 'Error')]. *)
Definition is_error_like (v : value) : completion bool :=
  if instanceof_Error v then Normal true
  else if negb (truthy v) then Normal false
  else
    let? c := get_value v "constructor" in
    if negb (truthy c) then Normal false
    else
      let? n := get_value c "name" in
      Normal (match n with VString s => String.eqb s "Error" | _ => false end).

Definition standard_key (key : string) : bool :=
  String.eqb key "name" || String.eqb key "message" || String.eqb key "stack".

(** Lines 16-36. *)
Definition getErrorDetails (error : value) : completion tvalue :=
  let? name := get_value error "name" in
  let? message := get_value error "message" in
  let? stack := get_value error "stack" in
  let errorObj :=
    [("__type", TStr "Error"); ("name", TVal name);
     ("message", TVal message); ("stack", TVal stack)] in
  Normal (TObj
    (fold_left
       (fun errorObj key =>
          if standard_key key then errorObj
          else
            match get_value error key with
            | Normal v => assign errorObj key (TVal v)
            | Throw _ => assign errorObj key (TStr "[Unable to access property]")
            end)
       (getOwnPropertyNames error) errorObj)).

Section Closure.

Variable maxDepth : Z.

(** [value.map(item => serialize(item, currentDepth + 1))]: holes are
    skipped and stay holes; an element is read, then passed on. *)
Fixpoint map_items (rec : value -> M tvalue) (items : list (option slot))
  : M (list tvalue) :=
  match items with
  | [] => ret []
  | None :: rest =>
      let* r := map_items rec rest in
      ret (TEmpty :: r)
  | Some s :: rest =>
      let* v := lift (read s) in
      let* t := rec v in
      let* r := map_items rec rest in
      ret (t :: r)
  end.

(** Lines 125-132: the loop over the own property names of [value].  The
    names are strings, so the symbol test of line 127 never fires. *)
Fixpoint serialize_props (rec : value -> M tvalue) (value : value)
    (props : list string) (obj : list (string * tvalue))
  : M (list (string * tvalue)) :=
  match props with
  | [] => ret obj
  | key :: rest =>
      let* r := try_ (let* v := lift (get_value value key) in rec v) in
      match r with
      | Normal t => serialize_props rec value rest (assign obj key t)
      | Throw e =>
          let* m := lift (thrown_message e) in
          let* s := lift (ToString m) in
          serialize_props rec value rest
            (assign obj key (TStr ("[Unable to serialize: " ++ s ++ "]")))
      end
  end.

(** Lines 73-136, for an object or function that [seen] does not hold;
    [rec v] is [serialize(v, currentDepth + 1)].  The closing
    [return '[Unknown Type]'] has no case here: past the function test
    [type] is 'object'. *)
Definition serialize_unseen (rec : value -> M tvalue) (a : addr) : M tvalue :=
  let value := VObject a in
  match o_kind (h a) with
  | KPromise =>
      ret (TObj [("__type", TStr "Promise"); ("state", TStr "pending")])
  | KDate toISOString =>
      let* iso := lift toISOString in
      ret (TObj [("__type", TStr "Date"); ("value", TStr iso)])
  | KRegExp =>
      let* source := lift (get_value value "source") in
      let* flags := lift (get_value value "flags") in
      ret (TObj [("__type", TStr "RegExp"); ("source", TVal source);
                 ("flags", TVal flags)])
  | KNode element =>
      let* nodeName := lift (get_value value "nodeName") in
      let* nodeType := lift (get_value value "nodeType") in
      let* id := lift (get_value value "id") in
      let* className := lift (get_value value "className") in
      let* innerHTML :=
        (if element then lift (get_value value "innerHTML") else ret VUndefined) in
      ret (TObj [("__type", TStr "DOMNode");
                 ("nodeName", TVal nodeName);
                 ("nodeType", TVal nodeType);
                 ("id", TVal (if truthy id then id else VUndefined));
                 ("className", TVal (if truthy className then className else VUndefined));
                 ("innerHTML", TVal innerHTML)])
  | KFunction toString =>
      let* name := lift (get_value value "name") in
      let* src := lift toString in
      let* src' := lift toString in
      ret (TObj [("__type", TStr "Function");
                 ("name", TVal (if truthy name then name else VString "anonymous"));
                 ("source",
                  TStr (String.substring 0 200 src
                        ++ (if (200 <? String.length src')%nat then "..." else "")))])
  | KArray items =>
      seen_add a;;
      let* r := map_items rec items in
      ret (TArr r)
  | KOrdinary =>
      seen_add a;;
      let* obj := serialize_props rec value (getOwnPropertyNames value) [] in
      ret (TObj obj)
  end.

(** Lines 69-71, then the above. *)
Definition serialize_object (rec : value -> M tvalue) (a : addr) : M tvalue :=
  let* cyc := seen_has a in
  if cyc then ret (TStr "[Circular Reference]") else serialize_unseen rec a.

(** Lines 38-66, then the object part. *)
Definition serialize_step (rec : value -> Z -> M tvalue)
    (value : value) (currentDepth : Z) : M tvalue :=
  if (currentDepth >? maxDepth)%Z then ret (TStr "[Max Depth Exceeded]")
  else
    match value with
    | VNull | VUndefined => ret (TVal value)
    | _ =>
        let* err := lift (is_error_like value) in
        if err then lift (getErrorDetails value)
        else
          match value with
          | VNumber x =>
              if PrimFloat.is_nan x then ret (TStr "NaN")
              else if negb (PrimFloat.is_finite x) then
                ret (TStr (if PrimFloat.ltb 0 x then "Infinity" else "-Infinity"))
              else ret (TVal value)
          | VSymbol description =>
              let d := match description with
                       | Some s => if String.eqb s "" then "unknown" else s
                       | None => "unknown"
                       end in
              ret (TStr ("[Symbol: " ++ d ++ "]"))
          | VObject a =>
              serialize_object (fun v => rec v (currentDepth + 1)%Z) a
          | _ => ret (TVal value)
          end
    end.

(** The recursion of [serialize], with a budget of nested calls. *)
Fixpoint serialize (fuel : nat) (value : value) (currentDepth : Z) : M tvalue :=
  match fuel with
  | O => fun _ => None
  | S fuel' => serialize_step (serialize fuel') value currentDepth
  end.

End Closure.

(** Nested calls [serialize] can make from depth [depth]: one per level
    up to [maxDepth], and the one stopped by the guard. *)
Definition budget (depth maxDepth : Z) : nat :=
  S (Z.to_nat (maxDepth + 1 - depth)).

(** Lines 14 and 140: [serialize(arg, depth)] under a fresh [seen]. *)
Definition run_serialize (arg : value) (depth maxDepth : Z)
  : option (completion tvalue) :=
  match serialize maxDepth (budget depth maxDepth) arg depth ∅ with
  | None => None
  | Some (c, _) => Some c
  end.

(** Lines 139-147: the [try]/[catch] around it. *)
Definition serializeForPostMessage (arg : value) (depth maxDepth : Z)
  : option (completion tvalue) :=
  match run_serialize arg depth maxDepth with
  | None => None
  | Some (Normal t) => Some (Normal t)
  | Some (Throw e) =>
      Some (let? message := thrown_message e in
            let? str := String_ arg in
            Normal (TObj [("__type", TStr "SerializationError");
                          ("message", TVal message);
                          ("value", TStr str)]))
  end.

End Serializer.

(** The defaults of the signature: [depth = 0, maxDepth = 3]. *)
Definition serializeForPostMessage_default
    (Number_toString : float -> string) (h : heap) (arg : value)
  : option (completion tvalue) :=
  serializeForPostMessage Number_toString h arg 0 3.

(** * Notions used in the properties *)

(** ** Specifications of computations *)

(** [stable P m]: from any [seen], the family [m] of computations indexed
    by a budget gives one and the same result at every budget in [P]. *)
Definition stable {A} (P : nat -> Prop) (m : nat -> M A) : Prop :=
  forall seen, exists r, forall fuel, P fuel -> m fuel seen = Some r.

(** [respects Q m]: whenever [m] completes, normally or by a throw, the
    [seen] set it leaves is related by [Q] to the one it found. *)
Definition respects {A} (Q : seen_set -> seen_set -> Prop) (m : M A) : Prop :=
  forall seen r seen', m seen = Some (r, seen') -> Q seen seen'.

(** The objects that reach [seen.add(value)] (line 115): arrays and generic
    objects that the error test of line 47 lets through. *)
Definition tracked (h : heap) (a : addr) : bool :=
  match is_error_like h (VObject a) with
  | Normal false =>
      match o_kind (h a) with
      | KArray _ | KOrdinary => true
      | _ => false
      end
  | _ => false
  end.

(** [pure P m]: [m] neither reads nor changes [seen], and its completion
    satisfies [P]. *)
Definition pure {A} (P : completion A -> Prop) (m : M A) : Prop :=
  exists c, P c /\ forall seen, m seen = Some (c, seen).

(** The growth of [seen] over a call: nothing leaves it, and what enters is
    tracked. *)
Definition grows (h : heap) (s s' : seen_set) : Prop :=
  s ⊆ s' /\ forall x, x ∈ s' -> x ∈ s \/ tracked h x = true.

Definition special_kind (k : kind) : bool :=
  match k with
  | KPromise | KDate _ | KRegExp | KNode _ | KFunction _ => true
  | KArray _ | KOrdinary => false
  end.

(** The objects that a special-type branch serializes: those the error test
    accepts (line 47), and promises, dates, regular expressions, DOM nodes
    and functions (lines 73-113). *)
Definition special (h : heap) (a : addr) : bool :=
  match is_error_like h (VObject a) with
  | Normal true => true
  | Normal false => special_kind (o_kind (h a))
  | Throw _ => false
  end.

Definition circular : tvalue := TStr "[Circular Reference]".

(** ** A sample page *)

Definition Object_ctor : addr := 0.
Definition Function_ctor : addr := 1.
Definition Error_ctor : addr := 2.
Definition Date_ctor : addr := 3.
Definition Array_ctor : addr := 4.
Definition Text_ctor : addr := 5.
Definition HTMLDivElement_ctor : addr := 6.

Definition native_source (name : string) : string :=
  "function " ++ name ++ "() { [native code] }".

(** A built-in constructor function. *)
Definition builtin (name : string) : object :=
  {| o_error := false;
     o_kind := KFunction (Normal (native_source name));
     o_own := [("length", Data (VNumber 1)); ("name", Data (VString name))];
     o_inherited := [("constructor", Data (VObject Function_ctor))];
     o_string := Normal (native_source name) |}.

(** An object written as a literal [{...}]. *)
Definition literal (own : list (string * slot)) : object :=
  {| o_error := false;
     o_kind := KOrdinary;
     o_own := own;
     o_inherited := [("constructor", Data (VObject Object_ctor))];
     o_string := Normal "[object Object]" |}.

(** [Object.create(null)]: nothing inherited, no string coercion. *)
Definition bare (own : list (string * slot)) : object :=
  {| o_error := false;
     o_kind := KOrdinary;
     o_own := own;
     o_inherited := [];
     o_string := Throw (NativeError "TypeError" "Cannot convert object to primitive value") |}.

(** [new Error(message)] with further own properties. *)
Definition error_instance (message : string) (extra : list (string * slot)) : object :=
  {| o_error := true;
     o_kind := KOrdinary;
     o_own := ("stack", Data (VString ("Error: " ++ message ++ " at app.js:3:9")))
              :: ("message", Data (VString message)) :: extra;
     o_inherited := [("constructor", Data (VObject Error_ctor));
                     ("name", Data (VString "Error"))];
     o_string := Normal ("Error: " ++ message) |}.

Definition date_instance (toISOString : completion string) (str : string) : object :=
  {| o_error := false;
     o_kind := KDate toISOString;
     o_own := [];
     o_inherited := [("constructor", Data (VObject Date_ctor))];
     o_string := Normal str |}.

Definition array_instance (items : list value) (str : completion string) : object :=
  {| o_error := false;
     o_kind := KArray (map (fun v => Some (Data v)) items);
     o_own := [];
     o_inherited := [("constructor", Data (VObject Array_ctor))];
     o_string := str |}.

Definition epoch : addr := 10.
Definition invalid_date : addr := 11.
Definition two_dates : addr := 12.
Definition date_and_one : addr := 13.
Definition dictionary : addr := 14.
Definition date_and_dictionary : addr := 15.
Definition retry : addr := 16.
Definition failure : addr := 17.
Definition loop : addr := 18.
Definition tagged_failure : addr := 19.
Definition text_node : addr := 20.
Definition div_node : addr := 21.
Definition guarded : addr := 22.
Definition callback_failure : addr := 23.

Definition epoch_string : string :=
  "Thu Jan 01 1970 00:00:00 GMT+0000 (Coordinated Universal Time)".

Definition page : heap := fun a =>
  match a with
  | 0 => builtin "Object"
  | 1 => builtin "Function"
  | 2 => builtin "Error"
  | 3 => builtin "Date"
  | 4 => builtin "Array"
  | 5 => builtin "Text"
  | 6 => builtin "HTMLDivElement"
  (* new Date(0) *)
  | 10 => date_instance (Normal "1970-01-01T00:00:00.000Z") epoch_string
  (* new Date(NaN) *)
  | 11 => date_instance (Throw (NativeError "RangeError" "Invalid time value")) "Invalid Date"
  (* const d = new Date(0); [d, d] *)
  | 12 => array_instance [VObject epoch; VObject epoch]
            (Normal (epoch_string ++ "," ++ epoch_string))
  (* [new Date(NaN), 1] *)
  | 13 => array_instance [VObject invalid_date; VNumber 1] (Normal "Invalid Date,1")
  (* Object.create(null) *)
  | 14 => bare []
  (* [new Date(NaN), Object.create(null)]: joining its elements fails *)
  | 15 => array_instance [VObject invalid_date; VObject dictionary]
            (Throw (NativeError "TypeError" "Cannot convert object to primitive value"))
  (* const retry = () => {} *)
  | 16 => {| o_error := false;
             o_kind := KFunction (Normal "() => {}");
             o_own := [("length", Data (VNumber 0)); ("name", Data (VString "retry"))];
             o_inherited := [("constructor", Data (VObject Function_ctor))];
             o_string := Normal "() => {}" |}
  (* Object.assign(new Error('boom'), { code: 42 }), with an accessor
     [secret] whose getter throws *)
  | 17 => error_instance "boom"
            [("code", Data (VNumber 42));
             ("secret", Getter (Throw (NativeError "Error" "denied")))]
  (* const a = {}; a.self = a *)
  | 18 => literal [("self", Data (VObject loop))]
  (* Object.assign(new Error('boom'), { __type: 'Custom' }) *)
  | 19 => error_instance "boom" [("__type", Data (VString "Custom"))]
  (* document.createTextNode('hi') *)
  | 20 => {| o_error := false;
             o_kind := KNode false;
             o_own := [];
             o_inherited := [("constructor", Data (VObject Text_ctor));
                             ("nodeName", Data (VString "#text"));
                             ("nodeType", Data (VNumber 3))];
             o_string := Normal "[object Text]" |}
  (* a <div id="app"> holding <b>hi</b>, without a class *)
  | 21 => {| o_error := false;
             o_kind := KNode true;
             o_own := [];
             o_inherited := [("constructor", Data (VObject HTMLDivElement_ctor));
                             ("nodeName", Data (VString "DIV"));
                             ("nodeType", Data (VNumber 1));
                             ("id", Data (VString "app"));
                             ("className", Data (VString ""));
                             ("innerHTML", Data (VString "<b>hi</b>"))];
             o_string := Normal "[object HTMLDivElement]" |}
  (* { get bad() { throw new Error('denied') }, ok: 1 } *)
  | 22 => literal [("bad", Getter (Throw (NativeError "Error" "denied")));
                   ("ok", Data (VNumber 1))]
  (* Object.assign(new Error('boom'), { code: 42, handler: retry }) *)
  | 23 => error_instance "boom"
            [("code", Data (VNumber 42)); ("handler", Data (VObject retry))]
  | _ => literal []
  end.

(** The sample page prints no number: any printer serves to run it. *)
Definition any_printer : float -> string := fun _ => "".

(** A transport value made only of primitives, strings, plain mappings and
    sequences: no leaf is a symbol or a page object (function, host object
    or other). *)
Fixpoint transport_safe (t : tvalue) : bool :=
  match t with
  | TVal (VSymbol _) | TVal (VObject _) => false
  | TVal _ | TEmpty => true
  | TArr items => forallb transport_safe items
  | TObj fields => forallb (fun kv => transport_safe (snd kv)) fields
  end.

Definition depth_marker : tvalue := TStr "[Max Depth Exceeded]".


(** A chain of [n] nested literals [{next: {next: ... {}}}]: the object at
    address [i < n] holds the one at [i + 1] under [next], the object at
    [n] is empty, and beyond it sits the [Object] constructor they inherit. *)
Definition chain (n : nat) : heap := fun a =>
  if (a <? n)%nat then
    {| o_error := false; o_kind := KOrdinary;
       o_own := [("next", Data (VObject (S a)))];
       o_inherited := [("constructor", Data (VObject (S n)))];
       o_string := Normal "[object Object]" |}
  else if (a =? n)%nat then
    {| o_error := false; o_kind := KOrdinary;
       o_own := [];
       o_inherited := [("constructor", Data (VObject (S n)))];
       o_string := Normal "[object Object]" |}
  else builtin "Object".


(** One turn of the loop of lines 25-33. *)
Definition copy_property (h : heap) (error : value)
    (errorObj : list (string * tvalue)) (key : string) : list (string * tvalue) :=
  if standard_key key then errorObj
  else
    match get_value h error key with
    | Normal v => assign errorObj key (TVal v)
    | Throw _ => assign errorObj key (TStr "[Unable to access property]")
    end.

(** What the loop stores under a key it copies. *)
Definition copied_value (h : heap) (error : value) (key : string) : tvalue :=
  match get_value h error key with
  | Normal v => TVal v
  | Throw _ => TStr "[Unable to access property]"
  end.

(** The record that a special-type branch gives an object, field by
    field: for an object that the error test accepts, the record of lines
    16-36 ([name], [message] and [stack] as read, [__type] 'Error' unless
    the object has an own property of that name, every other own property
    as copied); for a promise, a date, a regular expression, a DOM node and
    a function, the record of lines 73-113 with the values read from the
    object.  No array and no generic object has one. *)
Definition tagged_record (h : heap) (a : addr) (t : tvalue) : Prop :=
  let value := VObject a in
  match is_error_like h value with
  | Normal true =>
      exists name message stack fields,
        get_value h value "name" = Normal name
        /\ get_value h value "message" = Normal message
        /\ get_value h value "stack" = Normal stack
        /\ t = TObj fields
        /\ assoc "name" fields = Some (TVal name)
        /\ assoc "message" fields = Some (TVal message)
        /\ assoc "stack" fields = Some (TVal stack)
        /\ (~ In "__type" (getOwnPropertyNames h value) ->
            assoc "__type" fields = Some (TStr "Error"))
        /\ (forall key,
              In key (getOwnPropertyNames h value) ->
              standard_key key = false -> key <> "__proto__" ->
              assoc key fields = Some (copied_value h value key))
  | Normal false =>
      match o_kind (h a) with
      | KPromise =>
          t = TObj [("__type", TStr "Promise"); ("state", TStr "pending")]
      | KDate toISOString =>
          exists iso,
            toISOString = Normal iso
            /\ t = TObj [("__type", TStr "Date"); ("value", TStr iso)]
      | KRegExp =>
          exists source flags,
            get_value h value "source" = Normal source
            /\ get_value h value "flags" = Normal flags
            /\ t = TObj [("__type", TStr "RegExp"); ("source", TVal source);
                         ("flags", TVal flags)]
      | KNode element =>
          exists nodeName nodeType id className innerHTML,
            get_value h value "nodeName" = Normal nodeName
            /\ get_value h value "nodeType" = Normal nodeType
            /\ get_value h value "id" = Normal id
            /\ get_value h value "className" = Normal className
            /\ (if element then get_value h value "innerHTML" else Normal VUndefined)
               = Normal innerHTML
            /\ t = TObj [("__type", TStr "DOMNode");
                         ("nodeName", TVal nodeName);
                         ("nodeType", TVal nodeType);
                         ("id", TVal (if truthy id then id else VUndefined));
                         ("className",
                          TVal (if truthy className then className else VUndefined));
                         ("innerHTML", TVal innerHTML)]
      | KFunction toString =>
          exists name src,
            get_value h value "name" = Normal name
            /\ toString = Normal src
            /\ t = TObj [("__type", TStr "Function");
                         ("name", TVal (if truthy name then name else VString "anonymous"));
                         ("source",
                          TStr (String.substring 0 200 src
                                ++ (if (200 <? String.length src)%nat then "..." else "")))]
      | KArray _ | KOrdinary => False
      end
  | Throw _ => False
  end.

Definition nested_dates : addr := 40.
Definition nested_dates_y : addr := 41.
Definition nested_dates_z : addr := 42.
Definition nested_dates_w : addr := 43.

(** The sample page with one date at two depths. *)
Definition archive : heap := fun a =>
  match a with
  (* const d = new Date(0); { x: d, y: { z: { w: { v: d } } } } *)
  | 40 => literal [("x", Data (VObject epoch)); ("y", Data (VObject nested_dates_y))]
  | 41 => literal [("z", Data (VObject nested_dates_z))]
  | 42 => literal [("w", Data (VObject nested_dates_w))]
  | 43 => literal [("v", Data (VObject epoch))]
  | _ => page a
  end.

(** ** Measures and conditions for further properties *)

(** The larger of two numbers, when both are known. *)
Definition max_known (m n : option nat) : option nat :=
  match m, n with
  | Some a, Some b => Some (Nat.max a b)
  | _, _ => None
  end.

(** How deep arrays and mappings nest in a value handed to [postMessage].
    A page object placed in the result unserialized (a leaf
    [TVal (VObject a)], as line 28 can leave one) nests whatever the page
    has put in it, cycles included: a value that holds one has no known
    nesting. *)
Fixpoint nesting (t : tvalue) : option nat :=
  match t with
  | TVal (VObject _) => None
  | TVal _ | TEmpty => Some 0
  | TArr items =>
      option_map S (fold_right (fun x n => max_known (nesting x) n) (Some 0) items)
  | TObj fields =>
      option_map S
        (fold_right (fun kv n => max_known (nesting (snd kv)) n) (Some 0) fields)
  end.

(** [nests_within k t]: the nesting of [t], when known, is at most [k]. *)
Definition nests_within (k : nat) (t : tvalue) : Prop :=
  forall n, nesting t = Some n -> n <= k.


(** What is thrown is a fresh error object, not some other value of the
    page (null, a string, an object with an accessor [message], ...). *)
Definition fresh_error (e : thrown) : Prop :=
  match e with
  | NativeError _ _ => True
  | ThrowValue _ => False
  end.

(** A completion that, when it is a throw, throws a fresh error object. *)
Definition throws_error {A} (c : completion A) : Prop :=
  match c with
  | Throw e => fresh_error e
  | Normal _ => True
  end.

(** [errs m]: whatever the computation [m] throws is a fresh error object. *)
Definition errs {A} (m : M A) : Prop :=
  forall seen e seen', m seen = Some (Throw e, seen') -> fresh_error e.

(** A page where whatever a property read or a host method throws is a
    fresh error object. *)
Definition page_throws_errors (h : heap) : Prop :=
  forall a,
    (forall key, throws_error (get (h a) key))
    /\ (forall items s, o_kind (h a) = KArray items -> In (Some s) items ->
         throws_error (read s))
    /\ (forall c, o_kind (h a) = KDate c -> throws_error c)
    /\ (forall c, o_kind (h a) = KFunction c -> throws_error c)
    /\ throws_error (o_string (h a)).

(** A check of one object for [page_throws_errors]. *)
Definition completion_ok {A} (c : completion A) : bool :=
  match c with
  | Throw (ThrowValue _) => false
  | _ => true
  end.

Definition object_throws_errors (o : object) : bool :=
  forallb (fun kv => completion_ok (read (snd kv))) (own_slots o)
  && forallb (fun kv => completion_ok (read (snd kv))) (o_inherited o)
  && match o_kind o with
     | KArray items =>
         forallb (fun i => match i with
                           | Some s => completion_ok (read s)
                           | None => true
                           end) items
     | KDate c | KFunction c => completion_ok c
     | _ => true
     end
  && completion_ok (o_string o).

(** ** More sample objects *)

Definition three_numbers : addr := 30.
Definition shared : addr := 31.
Definition long_function : addr := 33.

(** The sample page with a few more objects. *)
Definition gallery : heap := fun a =>
  match a with
  (* [3, 1, 2] *)
  | 30 => array_instance [VNumber 3; VNumber 1; VNumber 2] (Normal "3,1,2")
  (* const shared = { n: 1 } *)
  | 31 => literal [("n", Data (VNumber 1))]
  (* [shared, shared] *)
  | 32 => array_instance [VObject shared; VObject shared]
            (Normal "[object Object],[object Object]")
  (* a function whose source text has 250 characters *)
  | 33 => {| o_error := false;
             o_kind := KFunction (Normal (String.concat "" (repeat "0123456789" 25)));
             o_own := [("length", Data (VNumber 0)); ("name", Data (VString ""))];
             o_inherited := [("constructor", Data (VObject Function_ctor))];
             o_string := Normal (String.concat "" (repeat "0123456789" 25)) |}
  | _ => page a
  end.

(** * The interceptors and the listeners

    Lines 150-242 of [src/main.js]: the function that replaces each console
    method, and the listeners for [error] and [unhandledrejection] events.
    What they do to the world is a sequence of calls: to the console
    methods saved in [original], and to [window.parent.postMessage]. *)

(** The six console methods that are saved and replaced (lines 3-10 and
    237-242); [interceptConsole] is called with these and no other. *)
Inductive level := LLog | LError | LWarn | LInfo | LDebug | LTrace.

Definition level_name (l : level) : string :=
  match l with
  | LLog => "log"
  | LError => "error"
  | LWarn => "warn"
  | LInfo => "info"
  | LDebug => "debug"
  | LTrace => "trace"
  end.

(** An argument handed to a console method: a value of the page, or what a
    catch clause caught. *)
Inductive printed :=
| PValue (v : value)
| PThrown (e : thrown).

Inductive effect :=
| ConsoleCall (l : level) (args : list printed)  (* original[l] applied to console *)
| PostMessage (message : tvalue).                (* window.parent.postMessage(message, '*') *)

(** What the window provides during one call of an interceptor or
    listener. *)
Record window := {
  original_completes : level -> list printed -> completion unit;
                                   (* how a saved console method completes *)
  error_stack : string;            (* new Error().stack *)
  now : string;                    (* new Date().toISOString() *)
  location_href : string;          (* window.location.href *)
  framed : bool;                   (* window.parent && window.parent !== window *)
  postMessage_completes : tvalue -> completion unit
                                   (* how the structured clone and send complete *)
}.

(** A computation that appends to the sequence of calls made; [None] only
    passes on an exhausted budget of the serializer. *)
Definition Act (A : Type) : Type := list effect -> option (completion A * list effect).

Definition hret {A} (a : A) : Act A := fun calls => Some (Normal a, calls).

Definition hbind {A B} (m : Act A) (k : A -> Act B) : Act B :=
  fun calls =>
    match m calls with
    | None => None
    | Some (Normal a, calls') => k a calls'
    | Some (Throw e, calls') => Some (Throw e, calls')
    end.

(** A computation without calls, such as a run of the serializer. *)
Definition hlift {A} (o : option (completion A)) : Act A :=
  fun calls =>
    match o with
    | None => None
    | Some c => Some (c, calls)
    end.

(** A call: recorded, then completed as the window has it. *)
Definition call (e : effect) (c : completion unit) : Act unit :=
  fun calls => Some (c, (calls ++ [e])%list).

(** [try { m } catch (e) { handler e }]. *)
Definition try_catch {A} (m : Act A) (handler : thrown -> Act A) : Act A :=
  fun calls =>
    match m calls with
    | None => None
    | Some (Normal a, calls') => Some (Normal a, calls')
    | Some (Throw e, calls') => handler e calls'
    end.

Definition newline : Ascii.ascii := Ascii.ascii_of_nat 10.

(** [s.split('\n')]. *)
Fixpoint split_lines (s : string) : list string :=
  match s with
  | EmptyString => [EmptyString]
  | String c rest =>
      if Ascii.eqb c newline then EmptyString :: split_lines rest
      else
        match split_lines rest with
        | line :: lines => String c line :: lines
        | [] => [String c EmptyString]
        end
  end.

(** Does a string hold a line break? *)
Fixpoint contains_newline (s : string) : bool :=
  match s with
  | EmptyString => false
  | String c rest => Ascii.eqb c newline || contains_newline rest
  end.

Section Interceptors.

Variable Number_toString : float -> string.
Variable h : heap.
Variable w : window.

Definition call_original (l : level) (args : list printed) : Act unit :=
  call (ConsoleCall l args) (original_completes w l args).

Definition postMessage (message : tvalue) : Act unit :=
  call (PostMessage message) (postMessage_completes w message).

(** Line 161: [args.map(arg => serializeForPostMessage(arg))], each
    argument with the default depths; the first failure ends the map. *)
Fixpoint serialize_args (args : list value) : option (completion (list tvalue)) :=
  match args with
  | [] => Some (Normal [])
  | arg :: rest =>
      match serializeForPostMessage_default Number_toString h arg with
      | None => None
      | Some (Throw e) => Some (Throw e)
      | Some (Normal t) =>
          match serialize_args rest with
          | None => None
          | Some (Throw e) => Some (Throw e)
          | Some (Normal ts) => Some (Normal (t :: ts))
          end
      end
  end.

(** Line 159: [stack.split('\n')[2] || '']. *)
Definition callSite_of (stack : string) : string := nth 2 (split_lines stack) "".

(** Lines 164-171. *)
Definition console_message (l : level) (serializedArgs : list tvalue) : tvalue :=
  TObj [("type", TStr "console");
        ("level", TStr (level_name l));
        ("timestamp", TStr (now w));
        ("args", TArr serializedArgs);
        ("callSite", TStr (callSite_of (error_stack w)));
        ("url", TStr (location_href w))].

(** Lines 151-184: the function installed in place of [console[level]],
    applied to the arguments of one call. *)
Definition interceptConsole (l : level) (args : list value) : Act unit :=
  try_catch
    (hbind (call_original l (map PValue args)) (fun _ =>
     hbind (hlift (serialize_args args)) (fun serializedArgs =>
     let message := console_message l serializedArgs in
     if framed w then postMessage message else hret tt)))
    (fun e =>
       hbind (call_original l (map PValue args)) (fun _ =>
       call_original LError [PValue (VString "Console interception error:"); PThrown e])).

(** The fields of an [ErrorEvent] that the listener reads. *)
Record error_event := {
  ev_error : value;
  ev_message : value;
  ev_filename : value;
  ev_lineno : value;
  ev_colno : value
}.

(** Lines 190-203. *)
Definition error_message (event : error_event) (errorDetails : tvalue) : tvalue :=
  TObj [("type", TStr "console");
        ("level", TStr "error");
        ("timestamp", TStr (now w));
        ("args", TArr [TObj [("__type", TStr "UnhandledError");
                             ("error", errorDetails);
                             ("message", TVal (ev_message event));
                             ("filename", TVal (ev_filename event));
                             ("lineno", TVal (ev_lineno event));
                             ("colno", TVal (ev_colno event))]]);
        ("url", TStr (location_href w))].

(** Lines 187-211: the listener for [error] events. *)
Definition on_error (event : error_event) : Act unit :=
  try_catch
    (hbind (hlift (serializeForPostMessage_default Number_toString h (ev_error event)))
       (fun errorDetails =>
        let message := error_message event errorDetails in
        if framed w then postMessage message else hret tt))
    (fun e =>
       call_original LError [PValue (VString "Error event handling failed:"); PThrown e]).

(** Lines 217-226. *)
Definition rejection_message (rejectionDetails : tvalue) : tvalue :=
  TObj [("type", TStr "console");
        ("level", TStr "error");
        ("timestamp", TStr (now w));
        ("args", TArr [TObj [("__type", TStr "UnhandledPromiseRejection");
                             ("reason", rejectionDetails)]]);
        ("url", TStr (location_href w))].

(** Lines 214-234: the listener for [unhandledrejection] events, applied
    to [event.reason]. *)
Definition on_unhandledrejection (reason : value) : Act unit :=
  try_catch
    (hbind (hlift (serializeForPostMessage_default Number_toString h reason))
       (fun rejectionDetails =>
        let message := rejection_message rejectionDetails in
        if framed w then postMessage message else hret tt))
    (fun e =>
       call_original LError [PValue (VString "Promise rejection handling failed:"); PThrown e]).

End Interceptors.

(** A window inside a frame whose console and parent accept every call. *)
Definition calm_window : window :=
  {| original_completes := fun _ _ => Normal tt;
     error_stack := "Error" ++ String newline "    at console.log (relay.js:158:31)"
                    ++ String newline "    at main (app.js:3:9)";
     now := "2024-01-01T00:00:00.000Z";
     location_href := "https://example.test/app";
     framed := true;
     postMessage_completes := fun _ => Normal tt |}.

(** * Properties *)

(** ** Fields of result objects *)

Lemma assoc_update_eq {A} (key : string) (x : A) fields :
  assoc key (update key x fields) = Some x.
Proof.
  induction fields as [|[k y] rest IH]; simpl.
  - now rewrite String.eqb_refl.
  - destruct (String.eqb k key) eqn:E; simpl; now rewrite E.
Qed.

Lemma assoc_update_ne {A} (key key' : string) (x : A) fields :
  key <> key' -> assoc key' (update key x fields) = assoc key' fields.
Proof.
  intros Hne. induction fields as [|[k y] rest IH]; simpl.
  - destruct (String.eqb key key') eqn:E; [apply String.eqb_eq in E; contradiction | reflexivity].
  - destruct (String.eqb k key) eqn:E; simpl.
    + apply String.eqb_eq in E. subst k.
      destruct (String.eqb key key') eqn:E'; [apply String.eqb_eq in E'; contradiction | reflexivity].
    + destruct (String.eqb k key'); [reflexivity | exact IH].
Qed.

Lemma assoc_assign_eq fields key x :
  key <> "__proto__" -> assoc key (assign fields key x) = Some x.
Proof.
  intros Hne. unfold assign.
  destruct (String.eqb key "__proto__") eqn:E; [apply String.eqb_eq in E; contradiction |].
  apply assoc_update_eq.
Qed.

Lemma assoc_assign_ne fields key key' x :
  key <> key' -> assoc key' (assign fields key x) = assoc key' fields.
Proof.
  intros Hne. unfold assign.
  destruct (String.eqb key "__proto__"); [reflexivity | now apply assoc_update_ne].
Qed.

(** ** Rules for the serializer's computations *)

Lemma stable_const {A} P (m : M A) :
  (forall seen, m seen <> None) -> stable P (fun _ => m).
Proof.
  intros Hm seen. destruct (m seen) as [r|] eqn:E; [| now destruct (Hm seen)].
  exists r. reflexivity.
Qed.

Lemma stable_ret {A} P (a : A) : stable P (fun _ => ret a).
Proof. intros seen. eexists. reflexivity. Qed.

Lemma stable_lift {A} P (c : completion A) : stable P (fun _ => lift c).
Proof. intros seen. eexists. reflexivity. Qed.

Lemma stable_bind {A B} P (m : nat -> M A) (k : nat -> A -> M B) :
  stable P m -> (forall a, stable P (fun fuel => k fuel a)) ->
  stable P (fun fuel => bind (m fuel) (k fuel)).
Proof.
  intros Hm Hk seen. destruct (Hm seen) as [[[a|e] seen'] Hr].
  - destruct (Hk a seen') as [r' Hr']. exists r'. intros fuel HP.
    unfold bind. rewrite (Hr fuel HP). now apply Hr'.
  - exists (Throw e, seen'). intros fuel HP. unfold bind. now rewrite (Hr fuel HP).
Qed.

Lemma stable_try {A} P (m : nat -> M A) :
  stable P m -> stable P (fun fuel => try_ (m fuel)).
Proof.
  intros Hm seen. destruct (Hm seen) as [[c seen'] Hr].
  exists (Normal c, seen'). intros fuel HP. unfold try_. now rewrite (Hr fuel HP).
Qed.

Section Respects.

Variable Q : seen_set -> seen_set -> Prop.
Hypothesis Q_refl : forall seen, Q seen seen.
Hypothesis Q_trans : forall s1 s2 s3, Q s1 s2 -> Q s2 s3 -> Q s1 s3.

Lemma respects_ret {A} (a : A) : respects Q (ret a).
Proof. intros seen r seen' [= _ <-]. apply Q_refl. Qed.

Lemma respects_lift {A} (c : completion A) : respects Q (lift c).
Proof. intros seen r seen' [= _ <-]. apply Q_refl. Qed.

Lemma respects_bind {A B} (m : M A) (k : A -> M B) :
  respects Q m -> (forall a, respects Q (k a)) -> respects Q (bind m k).
Proof.
  intros Hm Hk seen r seen'. unfold bind.
  destruct (m seen) as [[[a|e] s1]|] eqn:E; [| | discriminate].
  - intros Hka. eapply Q_trans; [eapply Hm, E | eapply Hk, Hka].
  - intros [= _ <-]. eapply Hm, E.
Qed.

Lemma respects_try {A} (m : M A) : respects Q m -> respects Q (try_ m).
Proof.
  intros Hm seen r seen'. unfold try_.
  destruct (m seen) as [[c s1]|] eqn:E; [| discriminate].
  intros [= _ <-]. eapply Hm, E.
Qed.

End Respects.

(** ** Termination *)

Section Termination.

Variable Number_toString : float -> string.
Variable h : heap.
Variable maxDepth : Z.
Variable P : nat -> Prop.

Lemma map_items_stable (rec : nat -> value -> M tvalue) items :
  (forall v, stable P (fun fuel => rec fuel v)) ->
  stable P (fun fuel => map_items (rec fuel) items).
Proof.
  intros Hrec. induction items as [|[s|] rest IH]; simpl.
  - apply stable_ret.
  - apply (stable_bind P (fun _ => lift (read s))); [apply stable_lift | intros v].
    apply (stable_bind P (fun fuel => rec fuel v)); [apply Hrec | intros t].
    apply (stable_bind P (fun fuel => map_items (rec fuel) rest)); [apply IH | intros r].
    apply stable_ret.
  - apply (stable_bind P (fun fuel => map_items (rec fuel) rest)); [apply IH | intros r].
    apply stable_ret.
Qed.

Lemma serialize_props_stable (rec : nat -> value -> M tvalue) value props :
  (forall v, stable P (fun fuel => rec fuel v)) ->
  forall obj, stable P (fun fuel => serialize_props Number_toString h (rec fuel) value props obj).
Proof.
  intros Hrec. induction props as [|key rest IH]; intros obj; simpl.
  - apply stable_ret.
  - apply (stable_bind P
             (fun fuel => try_ (let* v := lift (get_value h value key) in rec fuel v))).
    + apply stable_try.
      apply (stable_bind P (fun _ => lift (get_value h value key)));
        [apply stable_lift | intros v; apply Hrec].
    + intros [t|e]; [apply IH |].
      apply (stable_bind P (fun _ => lift (thrown_message h e))); [apply stable_lift | intros m].
      apply (stable_bind P (fun _ => lift (ToString Number_toString h m)));
        [apply stable_lift | intros s].
      apply IH.
Qed.

Lemma serialize_object_stable (rec : nat -> value -> M tvalue) a :
  (forall v, stable P (fun fuel => rec fuel v)) ->
  stable P (fun fuel => serialize_object Number_toString h (rec fuel) a).
Proof.
  intros Hrec. unfold serialize_object.
  apply (stable_bind P (fun _ => seen_has a)).
  { apply stable_const. discriminate. }
  intros [|]; [apply stable_ret |]. unfold serialize_unseen.
  destruct (o_kind (h a)) as [|iso| |element|src|items|].
  - apply stable_ret.
  - apply stable_const. intros seen. unfold bind, lift, ret. now destruct iso.
  - apply stable_const. intros seen. unfold bind, lift, ret.
    destruct (get_value h (VObject a) "source"); [| discriminate].
    now destruct (get_value h (VObject a) "flags").
  - apply stable_const. intros seen. unfold bind, lift, ret.
    destruct (get_value h (VObject a) "nodeName"); [| discriminate].
    destruct (get_value h (VObject a) "nodeType"); [| discriminate].
    destruct (get_value h (VObject a) "id"); [| discriminate].
    destruct (get_value h (VObject a) "className"); [| discriminate].
    destruct element; [now destruct (get_value h (VObject a) "innerHTML") | discriminate].
  - apply stable_const. intros seen. unfold bind, lift, ret.
    destruct (get_value h (VObject a) "name"); [| discriminate].
    now destruct src.
  - apply (stable_bind P (fun _ => seen_add a)).
    { apply stable_const. discriminate. }
    intros _.
    apply (stable_bind P (fun fuel => map_items (rec fuel) items));
      [now apply map_items_stable | intros r; apply stable_ret].
  - apply (stable_bind P (fun _ => seen_add a)).
    { apply stable_const. discriminate. }
    intros _.
    apply (stable_bind P
             (fun fuel => serialize_props Number_toString h (rec fuel) (VObject a)
                            (getOwnPropertyNames h (VObject a)) [])).
    + now apply serialize_props_stable.
    + intros obj. apply stable_ret.
Qed.

Lemma serialize_step_stable (rec : nat -> value -> Z -> M tvalue) value currentDepth :
  ((currentDepth <= maxDepth)%Z ->
   forall v, stable P (fun fuel => rec fuel v (currentDepth + 1)%Z)) ->
  stable P (fun fuel =>
              serialize_step Number_toString h maxDepth (rec fuel) value currentDepth).
Proof.
  intros Hrec. unfold serialize_step.
  destruct (currentDepth >? maxDepth)%Z eqn:Hd; [apply stable_ret |].
  assert (Hle : (currentDepth <= maxDepth)%Z) by lia.
  specialize (Hrec Hle).
  assert (Hprim : forall t : tvalue, stable P (fun _ : nat =>
            let* err := lift (is_error_like h value) in
            if err then lift (getErrorDetails h value) else ret t)).
  { intros t. apply stable_const. intros seen. unfold bind, lift, ret.
    now destruct (is_error_like h value) as [[|]|]. }
  destruct value as [| |b|x|s|n|d|a]; try apply stable_ret; try apply Hprim.
  - apply stable_const. intros seen. unfold bind, lift, ret.
    destruct (is_error_like h (VNumber x)) as [[|]|]; try discriminate.
    destruct (is_nan x); [discriminate |].
    now destruct (negb (is_finite x)).
  - apply (stable_bind P (fun _ => lift (is_error_like h (VObject a))));
      [apply stable_lift | intros [|]; [apply stable_lift |]].
    apply (serialize_object_stable (fun fuel v => rec fuel v (currentDepth + 1)%Z)).
    exact Hrec.
Qed.

End Termination.

Lemma serialize_stable Number_toString h maxDepth k :
  forall currentDepth value,
    Z.to_nat (maxDepth + 1 - currentDepth) <= k ->
    stable (fun fuel => k <= fuel)
      (fun fuel => serialize Number_toString h maxDepth (S fuel) value currentDepth).
Proof.
  induction k as [|k IH]; intros d v Hk; simpl;
    apply serialize_step_stable; intros Hd w seen.
  - lia.
  - destruct (IH (d + 1)%Z w ltac:(lia) seen) as [r Hr].
    exists r. intros [|fuel] Hfuel; [lia |]. apply Hr. lia.
Qed.

(** C4. [serialize] terminates on every input, cyclic or deeply nested: from
    any value, depth and [seen], a budget of [budget currentDepth maxDepth]
    nested calls (one per level of depth up to [maxDepth], plus the call the
    depth guard stops) always yields a result, the same with any larger
    budget; and [serializeForPostMessage] returns on every input. *)
Theorem serialize_terminates Number_toString h maxDepth value currentDepth seen :
  (exists r, forall extra,
      serialize Number_toString h maxDepth (budget currentDepth maxDepth + extra)
        value currentDepth seen = Some r)
  /\ (exists c, serializeForPostMessage Number_toString h value currentDepth maxDepth = Some c).
Proof.
  assert (Hs : forall seen', exists r, forall extra,
      serialize Number_toString h maxDepth (budget currentDepth maxDepth + extra)
        value currentDepth seen' = Some r).
  { intros seen'.
    destruct (serialize_stable Number_toString h maxDepth
                (Z.to_nat (maxDepth + 1 - currentDepth)) currentDepth value
                (Nat.le_refl _) seen') as [r Hr].
    exists r. intros extra.
    apply (Hr (Z.to_nat (maxDepth + 1 - currentDepth) + extra)). lia. }
  split; [apply Hs |].
  destruct (Hs ∅) as [[c seen'] Hr]. specialize (Hr 0). rewrite Nat.add_0_r in Hr.
  unfold serializeForPostMessage, run_serialize. rewrite Hr.
  destruct c; eexists; reflexivity.
Qed.

Lemma bind_lift_normal {A B} (a : A) (k : A -> M B) : bind (lift (Normal a)) k = k a.
Proof. reflexivity. Qed.

Lemma bind_lift_throw {A B} (e : thrown) (k : A -> M B) :
  bind (lift (Throw e)) k = lift (Throw e).
Proof. reflexivity. Qed.

(** ** What enters [seen] *)

Section Tracking.

Variable Number_toString : float -> string.
Variable h : heap.
Variable maxDepth : Z.

Variable Q : seen_set -> seen_set -> Prop.
Hypothesis Q_refl : forall seen, Q seen seen.
Hypothesis Q_trans : forall s1 s2 s3, Q s1 s2 -> Q s2 s3 -> Q s1 s3.
Hypothesis Q_add :
  forall a seen, tracked h a = true -> a ∉ seen -> Q seen ({[a]} ∪ seen).

Ltac straight :=
  repeat (apply (respects_bind Q Q_trans); [apply (respects_lift Q Q_refl) | intros ?]);
  apply (respects_ret Q Q_refl).

Lemma map_items_respects rec items :
  (forall v, respects Q (rec v)) -> respects Q (map_items rec items).
Proof.
  intros Hrec. induction items as [|[s|] rest IH]; simpl.
  - apply (respects_ret Q Q_refl).
  - apply (respects_bind Q Q_trans); [apply (respects_lift Q Q_refl) | intros v].
    apply (respects_bind Q Q_trans); [apply Hrec | intros t].
    apply (respects_bind Q Q_trans); [apply IH | intros r].
    apply (respects_ret Q Q_refl).
  - apply (respects_bind Q Q_trans); [apply IH | intros r].
    apply (respects_ret Q Q_refl).
Qed.

Lemma serialize_props_respects rec value props :
  (forall v, respects Q (rec v)) ->
  forall obj, respects Q (serialize_props Number_toString h rec value props obj).
Proof.
  intros Hrec. induction props as [|key rest IH]; intros obj; simpl.
  - apply (respects_ret Q Q_refl).
  - apply (respects_bind Q Q_trans).
    + apply (respects_try Q).
      apply (respects_bind Q Q_trans); [apply (respects_lift Q Q_refl) | apply Hrec].
    + intros [t|e]; [apply IH |].
      apply (respects_bind Q Q_trans); [apply (respects_lift Q Q_refl) | intros m].
      apply (respects_bind Q Q_trans); [apply (respects_lift Q Q_refl) | intros s].
      apply IH.
Qed.

Lemma serialize_object_respects rec a :
  is_error_like h (VObject a) = Normal false ->
  (forall v, respects Q (rec v)) ->
  respects Q (serialize_object Number_toString h rec a).
Proof.
  intros Herr Hrec seen r seen'.
  assert (Hrest : forall m : M tvalue,
             respects Q m -> m seen = Some (r, seen') -> Q seen seen')
    by (intros m Hm; apply Hm).
  assert (Hadd : forall m : M tvalue,
             tracked h a = true -> a ∉ seen -> respects Q m ->
             (seen_add a;; m) seen = Some (r, seen') -> Q seen seen').
  { intros m Ht Hn Hm Hrun.
    apply Q_trans with ({[a]} ∪ seen); [now apply Q_add |].
    eapply Hm. exact Hrun. }
  assert (Htr : forall k, o_kind (h a) = k ->
                match k with KArray _ | KOrdinary => true | _ => false end = true ->
                tracked h a = true).
  { intros k Hk Hm. unfold tracked. now rewrite Herr, Hk. }
  unfold serialize_object, bind at 1, seen_has. cbv beta iota zeta.
  destruct (bool_decide (a ∈ seen)) eqn:Hin; cbv beta iota.
  { apply Hrest, (respects_ret Q Q_refl). }
  apply bool_decide_eq_false in Hin. unfold serialize_unseen. cbv zeta.
  destruct (o_kind (h a)) as [|iso| |element|src|items|] eqn:Hk; cbv beta iota.
  - apply Hrest. straight.
  - apply Hrest. straight.
  - apply Hrest. straight.
  - apply Hrest. destruct element; straight.
  - apply Hrest. straight.
  - apply Hadd; [now apply (Htr _ eq_refl) | exact Hin |].
    apply (respects_bind Q Q_trans); [now apply map_items_respects | intros t].
    apply (respects_ret Q Q_refl).
  - apply Hadd; [now apply (Htr _ eq_refl) | exact Hin |].
    apply (respects_bind Q Q_trans); [now apply serialize_props_respects | intros t].
    apply (respects_ret Q Q_refl).
Qed.

Lemma serialize_step_respects rec value currentDepth :
  (forall v d, respects Q (rec v d)) ->
  respects Q (serialize_step Number_toString h maxDepth rec value currentDepth).
Proof.
  intros Hrec. unfold serialize_step.
  destruct (currentDepth >? maxDepth)%Z; [apply (respects_ret Q Q_refl) |].
  destruct value as [| |b|x|s|n|d|a]; try (apply (respects_ret Q Q_refl)).
  all: destruct (is_error_like h _) as [[|]|] eqn:Herr;
    rewrite ?bind_lift_normal, ?bind_lift_throw;
    try (apply (respects_lift Q Q_refl)); try (apply (respects_ret Q Q_refl)).
  - destruct (is_nan x); [apply (respects_ret Q Q_refl) |].
    destruct (negb (is_finite x)); apply (respects_ret Q Q_refl).
  - apply serialize_object_respects; [exact Herr | intros v; apply Hrec].
Qed.

Lemma serialize_respects fuel :
  forall value currentDepth,
    respects Q (serialize Number_toString h maxDepth fuel value currentDepth).
Proof.
  induction fuel as [|fuel IH]; intros v d; simpl.
  - intros seen r seen'. discriminate.
  - apply serialize_step_respects. exact IH.
Qed.

End Tracking.

Lemma pure_lift {A} (P : completion A -> Prop) c : P c -> pure P (lift c).
Proof. intros HP. exists c. split; [exact HP | reflexivity]. Qed.

Lemma pure_ret {A} (P : completion A -> Prop) a : P (Normal a) -> pure P (ret a).
Proof. intros HP. exists (Normal a). split; [exact HP | reflexivity]. Qed.

Lemma pure_bind {A B} (P : completion B -> Prop) (m : M A) (k : A -> M B) :
  (forall e, P (Throw e)) ->
  pure (fun _ => True) m -> (forall a, pure P (k a)) -> pure P (bind m k).
Proof.
  intros Hthrow [[a|e] [_ Hm]] Hk.
  - destruct (Hk a) as [c [HP Hc]]. exists c. split; [exact HP |].
    intros seen. unfold bind. rewrite Hm. apply Hc.
  - exists (Throw e). split; [apply Hthrow |].
    intros seen. unfold bind. now rewrite Hm.
Qed.

Lemma grows_refl h s : grows h s s.
Proof. split; [set_solver | auto]. Qed.

Lemma grows_trans h s1 s2 s3 : grows h s1 s2 -> grows h s2 s3 -> grows h s1 s3.
Proof.
  intros [H1 H1'] [H2 H2']. split; [set_solver |].
  intros x Hx. destruct (H2' x Hx) as [Hx2|Ht]; [apply H1', Hx2 | now right].
Qed.

Lemma grows_add h a s : tracked h a = true -> a ∉ s -> grows h s ({[a]} ∪ s).
Proof.
  intros Ht _. split; [set_solver |].
  intros x Hx. apply elem_of_union in Hx as [Hx|Hx]; [| now left].
  apply elem_of_singleton in Hx. subst x. now right.
Qed.

Lemma serialize_grows Number_toString h maxDepth fuel value currentDepth seen r seen' :
  serialize Number_toString h maxDepth fuel value currentDepth seen = Some (r, seen') ->
  grows h seen seen'.
Proof.
  apply (serialize_respects Number_toString h maxDepth (grows h)
           (grows_refl h) (grows_trans h) (grows_add h)).
Qed.

Lemma special_not_tracked h a : special h a = true -> tracked h a = false.
Proof.
  unfold special, tracked.
  destruct (is_error_like h (VObject a)) as [[|]|]; try reflexivity.
  now destruct (o_kind (h a)).
Qed.

Lemma getErrorDetails_not_string h v s : getErrorDetails h v <> Normal (TStr s).
Proof.
  unfold getErrorDetails, cbind.
  destruct (get_value h v "name"); [| discriminate].
  destruct (get_value h v "message"); [| discriminate].
  destruct (get_value h v "stack"); discriminate.
Qed.

Lemma serialize_revisit Number_toString h maxDepth fuel a currentDepth seen :
  tracked h a = true -> (currentDepth <= maxDepth)%Z -> a ∈ seen ->
  serialize Number_toString h maxDepth (S fuel) (VObject a) currentDepth seen
  = Some (Normal circular, seen).
Proof.
  intros Ht Hd Hin. simpl. unfold serialize_step.
  destruct (currentDepth >? maxDepth)%Z eqn:E; [lia |].
  unfold tracked in Ht.
  destruct (is_error_like h (VObject a)) as [[|]|]; try discriminate.
  rewrite bind_lift_normal. unfold serialize_object, bind at 1, seen_has.
  cbv beta iota zeta. now rewrite bool_decide_eq_true_2.
Qed.

Lemma serialize_object_unseen Number_toString h rec a seen :
  a ∉ seen ->
  serialize_object Number_toString h rec a seen
  = serialize_unseen Number_toString h rec a seen.
Proof.
  intros Hn. unfold serialize_object, bind, seen_has.
  now rewrite bool_decide_eq_false_2.
Qed.

Lemma serialize_unseen_special Number_toString h rec a :
  special_kind (o_kind (h a)) = true ->
  pure (fun c => c <> Normal circular) (serialize_unseen Number_toString h rec a).
Proof.
  intros Hk. unfold serialize_unseen.
  destruct (o_kind (h a)) as [|iso| |element|src|items|]; try discriminate.
  2-5: repeat (apply pure_bind;
               [discriminate
               | first [now apply pure_lift
                       | destruct element; [now apply pure_lift | now apply pure_ret]]
               | intros ?]).
  all: now apply pure_ret.
Qed.

(** A visit of an object that is not tracked leaves [seen] alone and
    completes the same way whatever [seen] holds, as long as the object is
    not in it. *)
Lemma serialize_untracked Number_toString h maxDepth fuel a currentDepth :
  tracked h a = false ->
  exists c, c <> Normal circular /\
    forall seen, a ∉ seen ->
      serialize Number_toString h maxDepth (S fuel) (VObject a) currentDepth seen
      = Some (c, seen).
Proof.
  intros Ht. simpl. unfold serialize_step.
  destruct (currentDepth >? maxDepth)%Z.
  { eexists. split; [| reflexivity]. discriminate. }
  unfold tracked in Ht.
  destruct (is_error_like h (VObject a)) as [[|]|] eqn:Herr;
    rewrite ?bind_lift_normal, ?bind_lift_throw.
  - exists (getErrorDetails h (VObject a)). split; [| reflexivity].
    apply getErrorDetails_not_string.
  - destruct (serialize_unseen_special Number_toString h
                (fun v => serialize Number_toString h maxDepth fuel v (currentDepth + 1)%Z) a)
      as [c [Hc Hrun]].
    { now destruct (o_kind (h a)). }
    exists c. split; [exact Hc |]. intros seen Hn.
    rewrite serialize_object_unseen by exact Hn. apply Hrun.
  - eexists. split; [| reflexivity]. discriminate.
Qed.

Lemma tracked_not_special h a :
  tracked h a = true -> special_kind (o_kind (h a)) = false /\ special h a = false.
Proof.
  unfold tracked, special.
  destruct (is_error_like h (VObject a)) as [[|]|]; try discriminate.
  now destruct (o_kind (h a)).
Qed.

(** The loop of lines 125-132 for one key [k] whose serialization always
    gives [t0] under an invariant [I] of [seen] that the recursive calls
    keep: if the loop completes normally, [k] holds [t0] at the end. *)
Lemma serialize_props_fixed_key Number_toString h rec value k t0 (I : seen_set -> Prop) :
  k <> "__proto__" ->
  (forall v s r s', I s -> rec v s = Some (r, s') -> I s') ->
  (forall s, I s ->
     (let* v := lift (get_value h value k) in rec v) s = Some (Normal t0, s)) ->
  forall props obj seen fields seen',
    I seen ->
    serialize_props Number_toString h rec value props obj seen = Some (Normal fields, seen') ->
    In k props \/ assoc k obj = Some t0 ->
    assoc k fields = Some t0.
Proof.
  intros Hk HI Hfix. induction props as [|key rest IH]; intros obj seen fields seen' Hs; simpl.
  - intros [= <- _] [[]|H]. exact H.
  - unfold bind at 1, try_.
    destruct (String.eqb key k) eqn:E.
    + apply String.eqb_eq in E. subst key. rewrite (Hfix seen Hs).
      intros Hrun _. apply (IH _ _ _ _ Hs Hrun). right. now apply assoc_assign_eq.
    + assert (Hne : key <> k) by (intros ->; rewrite String.eqb_refl in E; discriminate).
      destruct ((let* v := lift (get_value h value key) in rec v) seen)
        as [[c s1]|] eqn:Htry; [| discriminate].
      assert (Hs1 : I s1).
      { revert Htry. unfold bind, lift.
        destruct (get_value h value key) as [v|e]; [apply HI, Hs | now intros [= _ <-]]. }
      assert (Hor : forall x, In k (key :: rest) \/ assoc k obj = Some t0 ->
                     In k rest \/ assoc k (assign obj key x) = Some t0).
      { intros x [[Heq|Hin]|Ha]; [contradiction | now left | right].
        now rewrite assoc_assign_ne. }
      destruct c as [t|e].
      * intros Hrun Hin. apply (IH _ _ _ _ Hs1 Hrun). now apply Hor.
      * unfold bind, lift.
        destruct (thrown_message h e) as [m|]; [| discriminate].
        destruct (ToString Number_toString h m) as [s|]; [| discriminate].
        intros Hrun Hin. apply (IH _ _ _ _ Hs1 Hrun). now apply Hor.
Qed.

Lemma serialize_S Number_toString h maxDepth fuel value currentDepth :
  serialize Number_toString h maxDepth (S fuel) value currentDepth
  = serialize_step Number_toString h maxDepth
      (serialize Number_toString h maxDepth fuel) value currentDepth.
Proof. reflexivity. Qed.

Lemma serialize_mono Number_toString h maxDepth fuel value currentDepth seen r seen' :
  serialize Number_toString h maxDepth fuel value currentDepth seen = Some (r, seen') ->
  seen ⊆ seen'.
Proof. intros Hrun. now destruct (serialize_grows _ _ _ _ _ _ _ _ _ Hrun). Qed.

Lemma subseteq_seen_trans (s1 s2 s3 : seen_set) : s1 ⊆ s2 -> s2 ⊆ s3 -> s1 ⊆ s3.
Proof. set_solver. Qed.

(** The first visit of an array or generic object marks it, and gives an
    array or a mapping when it completes normally. *)
Lemma serialize_unseen_marks Number_toString h rec a seen r seen' :
  special_kind (o_kind (h a)) = false ->
  (forall v, respects (fun s s' : seen_set => s ⊆ s') (rec v)) ->
  serialize_unseen Number_toString h rec a seen = Some (r, seen') ->
  a ∈ seen'
  /\ forall t, r = Normal t ->
       (exists items, t = TArr items) \/ (exists fields, t = TObj fields).
Proof.
  intros Hk Hrec. unfold serialize_unseen. cbv zeta.
  destruct (o_kind (h a)) as [|iso| |element|src|items|]; try discriminate.
  all: unfold bind at 1, seen_add; cbv beta iota; unfold bind, ret.
  - destruct (map_items rec items ({[a]} ∪ seen)) as [[[l|e] s1]|] eqn:Hrun;
      [| | discriminate].
    all: apply (map_items_respects _ (fun s => reflexivity s) subseteq_seen_trans _ _ Hrec)
      in Hrun.
    all: intros [= <- <-]; split; [set_solver |].
    + intros t [= <-]. left. now eexists.
    + discriminate.
  - destruct (serialize_props _ _ rec _ _ _ ({[a]} ∪ seen)) as [[[l|e] s1]|] eqn:Hrun;
      [| | discriminate].
    all: apply (serialize_props_respects _ _ _ (fun s => reflexivity s)
                  subseteq_seen_trans _ _ _ Hrec) in Hrun.
    all: intros [= <- <-]; split; [set_solver |].
    + intros t [= <-]. right. now eexists.
    + discriminate.
Qed.

(** C3, as the code has it. Within one top-level call [seen] only grows; an
    array or generic object (a [tracked] one) visited at a depth within
    [maxDepth] is in [seen] from then on; visited when already in [seen] it
    serializes to '[Circular Reference]' and leaves [seen] as it is, while
    its first visit gives an array or a mapping.  In particular a generic
    object [a] with [a.self = a], serialized with the default depth, gives,
    when the call completes normally, a mapping whose 'self' entry is
    '[Circular Reference]'. *)
Theorem circular_marker_on_revisit Number_toString h maxDepth :
  (forall fuel value currentDepth seen r seen',
      serialize Number_toString h maxDepth fuel value currentDepth seen = Some (r, seen') ->
      seen ⊆ seen')
  /\ (forall fuel a currentDepth seen r seen',
        tracked h a = true -> (currentDepth <= maxDepth)%Z ->
        serialize Number_toString h maxDepth fuel (VObject a) currentDepth seen
        = Some (r, seen') ->
        a ∈ seen'
        /\ (a ∈ seen -> r = Normal circular /\ seen' = seen)
        /\ (a ∉ seen -> forall t, r = Normal t ->
              (exists items, t = TArr items) \/ (exists fields, t = TObj fields)))
  /\ (forall a t,
        tracked h a = true -> o_kind (h a) = KOrdinary ->
        In "self" (getOwnPropertyNames h (VObject a)) ->
        get_value h (VObject a) "self" = Normal (VObject a) ->
        run_serialize Number_toString h (VObject a) 0 3 = Some (Normal t) ->
        field "self" t = Some circular
        /\ serializeForPostMessage_default Number_toString h (VObject a) = Some (Normal t)).
Proof.
  split; [intros; eapply serialize_mono; eassumption |]. split.
  - intros fuel a d seen r seen' Ht Hd Hrun.
    destruct fuel as [|fuel]; [discriminate |].
    destruct (decide (a ∈ seen)) as [Hin|Hn].
    + rewrite serialize_revisit in Hrun by assumption. injection Hrun as <- <-.
      split; [exact Hin | split; [now intros _ | contradiction]].
    + revert Hrun. rewrite serialize_S. unfold serialize_step.
      destruct (d >? maxDepth)%Z eqn:E; [lia |].
      unfold tracked in Ht.
      destruct (is_error_like h (VObject a)) as [[|]|]; try discriminate.
      rewrite bind_lift_normal, serialize_object_unseen by exact Hn.
      intros Hrun. apply serialize_unseen_marks in Hrun as [Hin Hshape].
      * split; [exact Hin | split; [contradiction | intros _; exact Hshape]].
      * now destruct (o_kind (h a)).
      * intros v s r' s' Hv. eapply serialize_mono, Hv.
  - intros a t Ht Hk Hself Hget Hrun. split.
    2: { unfold serializeForPostMessage_default, serializeForPostMessage. now rewrite Hrun. }
    revert Hrun. unfold run_serialize. change (budget 0 3) with 5.
    rewrite serialize_S. unfold serialize_step.
    change (0 >? 3)%Z with false. cbv iota.
    pose proof Ht as Ht'. unfold tracked in Ht'.
    destruct (is_error_like h (VObject a)) as [[|]|]; try discriminate.
    rewrite bind_lift_normal, serialize_object_unseen by set_solver.
    unfold serialize_unseen. cbv zeta. rewrite Hk.
    unfold bind at 1, seen_add; cbv beta iota; unfold bind at 1, ret.
    destruct (serialize_props _ _ _ _ _ _ _) as [[[fields|e] s1]|] eqn:Hloop;
      [| discriminate | discriminate].
    intros [= <-]. unfold field.
    assert (Hfirst : a ∈ ({[a]} ∪ ∅ : seen_set))
      by (apply elem_of_union; left; now apply elem_of_singleton).
    assert (Hkeep : forall v s r s', a ∈ s ->
              serialize Number_toString h 3 4 v (0 + 1)%Z s = Some (r, s') -> a ∈ s').
    { intros v s r s' Hin Hv. apply serialize_mono in Hv. now apply Hv. }
    assert (Hfix : forall s, a ∈ s ->
              (let* v := lift (get_value h (VObject a) "self") in
               serialize Number_toString h 3 4 v (0 + 1)%Z) s = Some (Normal circular, s)).
    { intros s Hin. rewrite Hget, bind_lift_normal.
      apply serialize_revisit; [exact Ht | lia | exact Hin]. }
    apply (serialize_props_fixed_key Number_toString h _ (VObject a) "self" circular
             (fun s => a ∈ s) ltac:(discriminate) Hkeep Hfix _ _ _ _ _
             Hfirst Hloop (or_introl Hself)).
Qed.

(** ** Failures that escape *)

(** The catch clause of lines 141-147 gives the SerializationError record
    when it can read the message of what was thrown and convert the
    argument to a string. *)
Lemma serializeForPostMessage_catches Number_toString h arg depth maxDepth e message str :
  run_serialize Number_toString h arg depth maxDepth = Some (Throw e) ->
  thrown_message h e = Normal message ->
  String_ Number_toString h arg = Normal str ->
  serializeForPostMessage Number_toString h arg depth maxDepth
  = Some (Normal (TObj [("__type", TStr "SerializationError");
                        ("message", TVal message);
                        ("value", TStr str)])).
Proof.
  intros Hrun Hm Hs. unfold serializeForPostMessage. now rewrite Hrun, Hm, Hs.
Qed.

(** C1, at a failing input.  For [[new Date(NaN), Object.create(null)]] the
    inner serialization throws (the date has no ISO form), the catch clause
    of line 141 runs, and its own [String(arg)] throws while joining the
    array: [serializeForPostMessage] raises a TypeError to its caller. *)
Lemma serializeForPostMessage_raises Number_toString :
  run_serialize Number_toString page (VObject date_and_dictionary) 0 3
  = Some (Throw (NativeError "RangeError" "Invalid time value"))
  /\ serializeForPostMessage_default Number_toString page (VObject date_and_dictionary)
     = Some (Throw (NativeError "TypeError" "Cannot convert object to primitive value")).
Proof. split; vm_compute; reflexivity. Qed.

(** C2, at a failing input.  An error carrying a function under [handler]
    serializes to an Error record whose [handler] field is that very
    function object, copied by line 28 without being serialized. *)
Lemma error_property_leaks_function Number_toString :
  exists t,
    serializeForPostMessage_default Number_toString page (VObject callback_failure)
    = Some (Normal t)
    /\ field "__type" t = Some (TStr "Error")
    /\ field "code" t = Some (TVal (VNumber 42))
    /\ field "handler" t = Some (TVal (VObject retry))
    /\ o_kind (page retry) = KFunction (Normal "() => {}")
    /\ transport_safe t = false.
Proof. eexists. split; [vm_compute; reflexivity |]. repeat split. Qed.

(** C8, at a failing input.  In [[new Date(NaN), 1]] the first element
    fails; [map] (line 118) has no [try] around an element, so the whole
    array is lost, here to the SerializationError record of the top level,
    and the sibling [1] is not in the result.  The loop over the
    properties of an object (lines 125-132) does isolate the failure. *)
Lemma array_element_failure_aborts_siblings Number_toString :
  serializeForPostMessage_default Number_toString page (VObject date_and_one)
  = Some (Normal (TObj
      [("__type", TStr "SerializationError");
       ("message", TStr "Invalid time value");
       ("value", TStr "Invalid Date,1")]))
  /\ serializeForPostMessage_default Number_toString page (VObject guarded)
     = Some (Normal (TObj
         [("bad", TStr "[Unable to serialize: denied]");
          ("ok", TVal (VNumber 1))])).
Proof. split; vm_compute; reflexivity. Qed.

(** On the sample page no number is converted to a string: the objects
    used as examples serialize the same way under every printer. *)
Lemma page_prints_no_number Number_toString a :
  In a [two_dates; date_and_one; date_and_dictionary; failure; loop;
        tagged_failure; text_node; div_node; guarded; callback_failure] ->
  serializeForPostMessage_default Number_toString page (VObject a)
  = serializeForPostMessage_default any_printer page (VObject a).
Proof.
  intros Hin. repeat (destruct Hin as [<-|Hin]; [vm_compute; reflexivity |]).
  destruct Hin.
Qed.

(** ** The top-level call with the default depths *)

Lemma run_serialize_default Number_toString h arg :
  run_serialize Number_toString h arg 0 3
  = match serialize_step Number_toString h 3 (serialize Number_toString h 3 4) arg 0 ∅ with
    | None => None
    | Some (c, _) => Some c
    end.
Proof. reflexivity. Qed.

Lemma serializeForPostMessage_normal Number_toString h arg depth maxDepth t :
  run_serialize Number_toString h arg depth maxDepth = Some (Normal t) ->
  serializeForPostMessage Number_toString h arg depth maxDepth = Some (Normal t).
Proof. intros Hrun. unfold serializeForPostMessage. now rewrite Hrun. Qed.

(** The error test of line 47 rejects every primitive. *)
Lemma is_error_like_primitive h v :
  match v with
  | VObject _ => True
  | _ => is_error_like h v = Normal false
  end.
Proof.
  destruct v as [| |b|x|s|n|d|a]; try exact I; unfold is_error_like; simpl;
    try reflexivity.
  - now destruct b.
  - now destruct (negb (is_zero x || is_nan x)).
  - now destruct (negb (String.eqb s "")).
  - now destruct (negb (n =? 0)%Z).
Qed.

(** C6. Serialized with the default depths, a finite number, a string, a
    boolean, null and undefined come back unchanged; a NaN gives the
    string 'NaN', positive infinity 'Infinity', negative infinity
    '-Infinity'. *)
Theorem primitives_pass_through Number_toString h :
  (forall x, is_finite x = true ->
     serializeForPostMessage_default Number_toString h (VNumber x)
     = Some (Normal (TVal (VNumber x))))
  /\ (forall s,
        serializeForPostMessage_default Number_toString h (VString s)
        = Some (Normal (TVal (VString s))))
  /\ (forall b,
        serializeForPostMessage_default Number_toString h (VBoolean b)
        = Some (Normal (TVal (VBoolean b))))
  /\ serializeForPostMessage_default Number_toString h VNull = Some (Normal (TVal VNull))
  /\ serializeForPostMessage_default Number_toString h VUndefined
     = Some (Normal (TVal VUndefined))
  /\ (forall x, is_nan x = true ->
        serializeForPostMessage_default Number_toString h (VNumber x)
        = Some (Normal (TStr "NaN")))
  /\ serializeForPostMessage_default Number_toString h (VNumber infinity)
     = Some (Normal (TStr "Infinity"))
  /\ serializeForPostMessage_default Number_toString h (VNumber neg_infinity)
     = Some (Normal (TStr "-Infinity")).
Proof.
  assert (Hrun : forall v c,
             serialize_step Number_toString h 3 (serialize Number_toString h 3 4) v 0 ∅
             = Some (Normal c, ∅) ->
             serializeForPostMessage_default Number_toString h v = Some (Normal c)).
  { intros v c Hv. apply serializeForPostMessage_normal.
    rewrite run_serialize_default. now rewrite Hv. }
  repeat split; intros; apply Hrun; unfold serialize_step; change (0 >? 3)%Z with false; cbv iota;
    try reflexivity.
  - rewrite (is_error_like_primitive h (VNumber x)), bind_lift_normal.
    assert (Hn : is_nan x = false)
      by (unfold is_finite in H; destruct (is_nan x); [discriminate | reflexivity]).
    now rewrite Hn, H.
  - now rewrite (is_error_like_primitive h (VString s)).
  - now rewrite (is_error_like_primitive h (VBoolean b)).
  - rewrite (is_error_like_primitive h (VNumber x)), bind_lift_normal. now rewrite H.
Qed.

(** Witness of [primitives_pass_through]: 1.5 is finite and passes, and the
    NaN of the machine is a NaN. *)
Lemma primitives_pass_through_witness :
  serializeForPostMessage_default any_printer page (VNumber 1.5)
  = Some (Normal (TVal (VNumber 1.5)))
  /\ serializeForPostMessage_default any_printer page (VNumber nan)
     = Some (Normal (TStr "NaN")).
Proof.
  split.
  - apply (proj1 (primitives_pass_through any_printer page) 1.5%float). reflexivity.
  - apply (proj1 (proj2 (proj2 (proj2 (proj2 (proj2
             (primitives_pass_through any_printer page)))))) nan).
    reflexivity.
Defined.

(** ** The depth guard *)









(** ** Error records *)

Lemma copy_property_other h error errorObj key k :
  key <> k -> assoc k (copy_property h error errorObj key) = assoc k errorObj.
Proof.
  intros Hne. unfold copy_property.
  destruct (standard_key key); [reflexivity |].
  destruct (get_value h error key); now apply assoc_assign_ne.
Qed.

Lemma copy_property_kept h error keys k :
  forall errorObj,
    (In k keys -> standard_key k = true \/ k = "__proto__") ->
    assoc k (fold_left (copy_property h error) keys errorObj) = assoc k errorObj.
Proof.
  induction keys as [|key rest IH]; intros errorObj Hk; [reflexivity |].
  simpl. rewrite IH by (intros Hin; apply Hk; now right).
  destruct (String.eqb key k) eqn:E.
  - apply String.eqb_eq in E. subst key.
    unfold copy_property, assign.
    destruct (Hk (or_introl eq_refl)) as [Hs| ->]; [now rewrite Hs |].
    destruct (standard_key "__proto__"); [reflexivity |].
    now destruct (get_value h error "__proto__").
  - apply copy_property_other. intros ->. rewrite String.eqb_refl in E. discriminate.
Qed.

Lemma copy_property_stored h error keys k :
  standard_key k = false -> k <> "__proto__" ->
  forall errorObj,
    In k keys \/ assoc k errorObj = Some (copied_value h error k) ->
    assoc k (fold_left (copy_property h error) keys errorObj)
    = Some (copied_value h error k).
Proof.
  intros Hs Hp. induction keys as [|key rest IH]; intros errorObj Hk; simpl.
  - now destruct Hk.
  - apply IH. destruct (String.eqb key k) eqn:E.
    + apply String.eqb_eq in E. subst key. right.
      unfold copy_property, copied_value. rewrite Hs.
      destruct (get_value h error k); now apply assoc_assign_eq.
    + assert (key <> k) by (intros ->; rewrite String.eqb_refl in E; discriminate).
      rewrite copy_property_other by assumption.
      destruct Hk as [[Heq|Hin]|Ha]; [contradiction | now left | now right].
Qed.

(** C7, as the code has it. For every value that the error test of line 47
    accepts and whose [name], [message] and [stack] can be read, the call
    with the default depths returns a record that holds these three as
    read, and every other own property (enumerable or not, [__proto__]
    apart) as read, or the string '[Unable to access property]' for that
    property alone when reading it throws; the record's [__type] is 'Error'
    unless the error has an own property of that name. *)
Theorem error_record Number_toString h a name message stack :
  is_error_like h (VObject a) = Normal true ->
  get_value h (VObject a) "name" = Normal name ->
  get_value h (VObject a) "message" = Normal message ->
  get_value h (VObject a) "stack" = Normal stack ->
  exists fields,
    serializeForPostMessage_default Number_toString h (VObject a)
    = Some (Normal (TObj fields))
    /\ assoc "name" fields = Some (TVal name)
    /\ assoc "message" fields = Some (TVal message)
    /\ assoc "stack" fields = Some (TVal stack)
    /\ (~ In "__type" (getOwnPropertyNames h (VObject a)) ->
        assoc "__type" fields = Some (TStr "Error"))
    /\ (forall key,
          In key (getOwnPropertyNames h (VObject a)) ->
          standard_key key = false -> key <> "__proto__" ->
          assoc key fields
          = Some (match get_value h (VObject a) key with
                  | Normal v => TVal v
                  | Throw _ => TStr "[Unable to access property]"
                  end)).
Proof.
  intros Herr Hname Hmessage Hstack.
  exists (fold_left (copy_property h (VObject a)) (getOwnPropertyNames h (VObject a))
            [("__type", TStr "Error"); ("name", TVal name);
             ("message", TVal message); ("stack", TVal stack)]).
  split; [| repeat split].
  - apply serializeForPostMessage_normal. rewrite run_serialize_default.
    unfold serialize_step. change (0 >? 3)%Z with false. cbv iota.
    rewrite Herr, bind_lift_normal. unfold getErrorDetails.
    now rewrite Hname, Hmessage, Hstack.
  - rewrite copy_property_kept by (intros _; now left). reflexivity.
  - rewrite copy_property_kept by (intros _; now left). reflexivity.
  - rewrite copy_property_kept by (intros _; now left). reflexivity.
  - intros Hno. rewrite copy_property_kept by (intros Hin; contradiction). reflexivity.
  - intros key Hin Hs Hp. apply copy_property_stored; [exact Hs | exact Hp | now left].
Qed.

(** Witness of [error_record]: [new Error('boom')] with [code = 42] and an
    accessor [secret] that throws. *)
Lemma error_record_witness :
  exists fields,
    serializeForPostMessage_default any_printer page (VObject failure)
    = Some (Normal (TObj fields))
    /\ assoc "name" fields = Some (TStr "Error")
    /\ assoc "message" fields = Some (TStr "boom")
    /\ assoc "code" fields = Some (TVal (VNumber 42))
    /\ assoc "secret" fields = Some (TStr "[Unable to access property]").
Proof.
  destruct (error_record any_printer page failure
              (VString "Error") (VString "boom") (VString "Error: boom at app.js:3:9")
              eq_refl eq_refl eq_refl eq_refl)
    as [fields [Hrun [Hname [Hmessage [_ [_ Hextra]]]]]].
  exists fields. split; [exact Hrun |]. split; [exact Hname |]. split; [exact Hmessage |].
  split.
  - apply (Hextra "code"); [right; right; left; reflexivity | reflexivity | discriminate].
  - apply (Hextra "secret");
      [right; right; right; left; reflexivity | reflexivity | discriminate].
Defined.

(** C7, the claim as worded fails: an error with an own property [__type]
    serializes to a record whose [__type] is that property's value, not
    'Error'. *)
Lemma error_record_tag_overwritten :
  serializeForPostMessage_default any_printer page (VObject tagged_failure)
  = Some (Normal (TObj
      [("__type", TStr "Custom");
       ("name", TStr "Error");
       ("message", TStr "boom");
       ("stack", TStr "Error: boom at app.js:3:9")]))
  /\ o_error (page tagged_failure) = true
  /\ TStr "Custom" <> TStr "Error".
Proof. split; [vm_compute; reflexivity | split; [reflexivity | discriminate]]. Qed.

(** ** DOM nodes *)

(** C9, as the code has it. For every DOM node whose properties can be
    read, the call with the default depths returns a record with the six
    keys [__type] ('DOMNode'), [nodeName], [nodeType], [id], [className]
    and [innerHTML], always: [id] and [className] hold the node's value when
    it is truthy and [undefined] otherwise, [innerHTML] holds the node's
    markup when the node is an element and [undefined] otherwise. *)
Theorem dom_node_record Number_toString h a element nodeName nodeType id className innerHTML :
  o_kind (h a) = KNode element ->
  is_error_like h (VObject a) = Normal false ->
  get_value h (VObject a) "nodeName" = Normal nodeName ->
  get_value h (VObject a) "nodeType" = Normal nodeType ->
  get_value h (VObject a) "id" = Normal id ->
  get_value h (VObject a) "className" = Normal className ->
  (if element then get_value h (VObject a) "innerHTML" else Normal VUndefined)
  = Normal innerHTML ->
  serializeForPostMessage_default Number_toString h (VObject a)
  = Some (Normal (TObj
      [("__type", TStr "DOMNode");
       ("nodeName", TVal nodeName);
       ("nodeType", TVal nodeType);
       ("id", TVal (if truthy id then id else VUndefined));
       ("className", TVal (if truthy className then className else VUndefined));
       ("innerHTML", TVal innerHTML)])).
Proof.
  intros Hk Herr Hname Htype Hid Hclass Hhtml.
  apply serializeForPostMessage_normal. rewrite run_serialize_default.
  unfold serialize_step. change (0 >? 3)%Z with false. cbv iota.
  rewrite Herr, bind_lift_normal. cbv beta iota.
  rewrite serialize_object_unseen by set_solver.
  unfold serialize_unseen. cbv zeta. rewrite Hk, Hname, Htype, Hid, Hclass.
  rewrite !bind_lift_normal.
  destruct element.
  - now rewrite Hhtml.
  - injection Hhtml as <-. reflexivity.
Qed.

(** Witness of [dom_node_record]: a [div] element with an id and no class. *)
Lemma dom_node_record_witness :
  serializeForPostMessage_default any_printer page (VObject div_node)
  = Some (Normal (TObj
      [("__type", TStr "DOMNode");
       ("nodeName", TStr "DIV");
       ("nodeType", TVal (VNumber 1));
       ("id", TStr "app");
       ("className", TVal VUndefined);
       ("innerHTML", TStr "<b>hi</b>")])).
Proof.
  apply (dom_node_record any_printer page div_node true
           (VString "DIV") (VNumber 1) (VString "app") (VString "") (VString "<b>hi</b>"));
    reflexivity.
Defined.

(** C9, the claim as worded fails: a text node has no id, no class and no
    markup, and its record still has the three fields, set to [undefined]. *)
Lemma dom_node_absent_fields_present :
  exists t,
    serializeForPostMessage_default any_printer page (VObject text_node) = Some (Normal t)
    /\ field "id" t = Some (TVal VUndefined)
    /\ field "className" t = Some (TVal VUndefined)
    /\ field "innerHTML" t = Some (TVal VUndefined)
    /\ field "id" t <> None.
Proof.
  eexists. split; [vm_compute; reflexivity |].
  split; [reflexivity |]. split; [reflexivity |]. split; [reflexivity | discriminate].
Qed.

(** ** Examples of revisits *)

(** Witness of [circular_marker_on_revisit]: the object [a] with
    [a.self = a]. *)
Lemma circular_marker_on_revisit_witness :
  field "self" (TObj [("self", circular)]) = Some circular
  /\ serializeForPostMessage_default any_printer page (VObject loop)
     = Some (Normal (TObj [("self", circular)])).
Proof.
  apply (proj2 (proj2 (circular_marker_on_revisit any_printer page 3)) loop).
  - reflexivity.
  - reflexivity.
  - left. reflexivity.
  - reflexivity.
  - vm_compute. reflexivity.
Defined.

(** C3, the claim as worded fails: in [[d, d]] the date [d] is visited
    twice, and its second visit gives the Date record again, not
    '[Circular Reference]'. *)
Lemma revisited_date_is_not_circular :
  o_kind (page two_dates)
  = KArray [Some (Data (VObject epoch)); Some (Data (VObject epoch))]
  /\ serializeForPostMessage_default any_printer page (VObject two_dates)
     = Some (Normal (TArr
         [TObj [("__type", TStr "Date"); ("value", TStr "1970-01-01T00:00:00.000Z")];
          TObj [("__type", TStr "Date"); ("value", TStr "1970-01-01T00:00:00.000Z")]]))
  /\ TObj [("__type", TStr "Date"); ("value", TStr "1970-01-01T00:00:00.000Z")]
     <> circular.
Proof. split; [reflexivity | split; [vm_compute; reflexivity | discriminate]]. Qed.

(** ** Special objects met again *)

Lemma getErrorDetails_record h a t :
  is_error_like h (VObject a) = Normal true ->
  getErrorDetails h (VObject a) = Normal t ->
  tagged_record h a t.
Proof.
  intros Herr. unfold tagged_record, getErrorDetails, cbind. rewrite Herr.
  destruct (get_value h (VObject a) "name") as [name|]; [| discriminate].
  destruct (get_value h (VObject a) "message") as [message|]; [| discriminate].
  destruct (get_value h (VObject a) "stack") as [stack|]; [| discriminate].
  intros [= <-]. exists name, message, stack.
  exists (fold_left (copy_property h (VObject a)) (getOwnPropertyNames h (VObject a))
            [("__type", TStr "Error"); ("name", TVal name);
             ("message", TVal message); ("stack", TVal stack)]).
  repeat split.
  - rewrite copy_property_kept by (intros _; now left). reflexivity.
  - rewrite copy_property_kept by (intros _; now left). reflexivity.
  - rewrite copy_property_kept by (intros _; now left). reflexivity.
  - intros Hno. rewrite copy_property_kept by (intros Hin; contradiction). reflexivity.
  - intros key Hin Hs Hp. apply copy_property_stored; [exact Hs | exact Hp | now left].
Qed.

Lemma serialize_unseen_record Number_toString h rec a seen t seen' :
  is_error_like h (VObject a) = Normal false ->
  special_kind (o_kind (h a)) = true ->
  serialize_unseen Number_toString h rec a seen = Some (Normal t, seen') ->
  tagged_record h a t.
Proof.
  intros Herr Hk. unfold tagged_record, serialize_unseen. cbv zeta. rewrite Herr.
  destruct (o_kind (h a)) as [|iso| |element|src|items|]; try discriminate.
  - intros [= <- _]. reflexivity.
  - destruct iso as [iso|e]; [| discriminate]. intros [= <- _]. now exists iso.
  - destruct (get_value h (VObject a) "source") as [source|]; [| discriminate].
    destruct (get_value h (VObject a) "flags") as [flags|]; [| discriminate].
    intros [= <- _]. now exists source, flags.
  - destruct (get_value h (VObject a) "nodeName") as [nodeName|]; [| discriminate].
    destruct (get_value h (VObject a) "nodeType") as [nodeType|]; [| discriminate].
    destruct (get_value h (VObject a) "id") as [id|]; [| discriminate].
    destruct (get_value h (VObject a) "className") as [className|]; [| discriminate].
    destruct element.
    + destruct (get_value h (VObject a) "innerHTML") as [innerHTML|]; [| discriminate].
      intros [= <- _]. now exists nodeName, nodeType, id, className, innerHTML.
    + intros [= <- _]. now exists nodeName, nodeType, id, className, VUndefined.
  - destruct (get_value h (VObject a) "name") as [name|]; [| discriminate].
    destruct src as [src|e]; [| discriminate].
    intros [= <- _]. now exists name, src.
Qed.

(** C10, as the code has it. The cycle-tracking set only ever holds arrays
    and generic objects (the [tracked] ones, none of them of a special kind
    or error-like): a call started from such a set ends with such a set, as
    does every top-level call, which starts from the empty set.  An object
    serialized by a special-type branch (error, promise, date, regular
    expression, DOM node, function) is never added, so at any later
    occurrence in the call its visit returns, leaves the set as it is,
    never yields '[Circular Reference]' and completes exactly as a visit
    under the empty set does: at a depth within [maxDepth], when it
    completes normally, with the object's full tagged record; at a depth
    beyond [maxDepth], with '[Max Depth Exceeded]'. *)
Theorem seen_holds_only_arrays_and_objects Number_toString h maxDepth :
  (forall fuel value currentDepth seen r seen',
      (forall x, x ∈ seen -> tracked h x = true) ->
      serialize Number_toString h maxDepth fuel value currentDepth seen = Some (r, seen') ->
      forall x, x ∈ seen' ->
        tracked h x = true /\ special_kind (o_kind (h x)) = false /\ special h x = false)
  /\ (forall fuel a currentDepth seen,
        special h a = true ->
        (forall x, x ∈ seen -> tracked h x = true) ->
        exists r,
          serialize Number_toString h maxDepth (S fuel) (VObject a) currentDepth seen
          = Some (r, seen)
          /\ serialize Number_toString h maxDepth (S fuel) (VObject a) currentDepth ∅
             = Some (r, ∅)
          /\ r <> Normal circular
          /\ ((currentDepth <= maxDepth)%Z -> forall t, r = Normal t -> tagged_record h a t)
          /\ ((currentDepth > maxDepth)%Z -> r = Normal depth_marker)).
Proof.
  split.
  - intros fuel value currentDepth seen r seen' Hseen Hrun x Hx.
    destruct (serialize_grows _ _ _ _ _ _ _ _ _ Hrun) as [_ Hg].
    assert (Ht : tracked h x = true)
      by (destruct (Hg x Hx) as [Hin|Ht]; [now apply Hseen | exact Ht]).
    split; [exact Ht | now apply tracked_not_special].
  - intros fuel a currentDepth seen Hsp Hseen.
    assert (Hnt : tracked h a = false) by now apply special_not_tracked.
    assert (Hn : a ∉ seen).
    { intros Hin. apply Hseen in Hin. congruence. }
    destruct (serialize_untracked Number_toString h maxDepth fuel a currentDepth Hnt)
      as [r [Hr Hall]].
    exists r. split; [now apply Hall |].
    match goal with
    | |- ?P /\ _ => assert (Hempty : P) by (apply Hall; set_solver)
    end.
    split; [exact Hempty |]. split; [exact Hr |].
    rewrite serialize_S in Hempty. unfold serialize_step in Hempty.
    split.
    + intros Hd t ->.
      destruct (currentDepth >? maxDepth)%Z eqn:E; [lia |].
      unfold special in Hsp.
      destruct (is_error_like h (VObject a)) as [[|]|] eqn:Herr; [| | discriminate].
      * rewrite bind_lift_normal in Hempty. injection Hempty as Hempty.
        now apply getErrorDetails_record.
      * rewrite bind_lift_normal, serialize_object_unseen in Hempty by set_solver.
        now apply serialize_unseen_record in Hempty.
    + intros Hd. destruct (currentDepth >? maxDepth)%Z eqn:E; [| lia].
      now injection Hempty as <-.
Qed.

(** Witness of [seen_holds_only_arrays_and_objects]: the second visit of
    the date of [[d, d]], at depth 1 with the array in [seen]. *)
Lemma seen_holds_only_arrays_and_objects_witness :
  exists r,
    serialize any_printer page 3 4 (VObject epoch) 1 {[two_dates]}
    = Some (r, {[two_dates]})
    /\ serialize any_printer page 3 4 (VObject epoch) 1 ∅ = Some (r, ∅)
    /\ r <> Normal circular
    /\ ((1 <= 3)%Z -> forall t, r = Normal t -> tagged_record page epoch t)
    /\ ((1 > 3)%Z -> r = Normal depth_marker).
Proof.
  apply (proj2 (seen_holds_only_arrays_and_objects any_printer page 3%Z) 3 epoch 1%Z
           {[two_dates]}).
  - reflexivity.
  - intros x Hx. apply elem_of_singleton in Hx. subst x. reflexivity.
Defined.

(** C10, the claim as worded fails: in [{x: d, y: {z: {w: {v: d}}}}] the
    date [d] occurs twice, and its later occurrence, four levels down,
    gives '[Max Depth Exceeded]', not the Date record that its first
    occurrence gives. *)
Lemma deep_date_is_cut :
  special archive epoch = true
  /\ get_value archive (VObject nested_dates) "x" = Normal (VObject epoch)
  /\ get_value archive (VObject nested_dates_w) "v" = Normal (VObject epoch)
  /\ serializeForPostMessage_default any_printer archive (VObject nested_dates)
     = Some (Normal (TObj
         [("x", TObj [("__type", TStr "Date"); ("value", TStr "1970-01-01T00:00:00.000Z")]);
          ("y", TObj [("z", TObj [("w", TObj [("v", depth_marker)])])])]))
  /\ depth_marker
     <> TObj [("__type", TStr "Date"); ("value", TStr "1970-01-01T00:00:00.000Z")]
  /\ ~ tagged_record archive epoch depth_marker.
Proof.
  split; [reflexivity |]. split; [reflexivity |]. split; [reflexivity |].
  split; [vm_compute; reflexivity |]. split; [discriminate |].
  unfold tagged_record. change (is_error_like archive (VObject epoch)) with (Normal (A:=bool) false).
  change (o_kind (archive epoch)) with (KDate (Normal "1970-01-01T00:00:00.000Z")).
  intros [iso [_ Ht]]. discriminate.
Qed.


(** * Further properties of the serializer *)

(** ** Inversion of computations *)

Lemma bind_normal_inv {A B} (m : M A) (k : A -> M B) seen b seen' :
  bind m k seen = Some (Normal b, seen') ->
  exists a s1, m seen = Some (Normal a, s1) /\ k a s1 = Some (Normal b, seen').
Proof.
  unfold bind. destruct (m seen) as [[[a|e] s1]|]; try discriminate.
  intros Hk. now exists a, s1.
Qed.

Lemma bind_throw_inv {A B} (m : M A) (k : A -> M B) seen e seen' :
  bind m k seen = Some (Throw e, seen') ->
  m seen = Some (Throw e, seen')
  \/ exists a s1, m seen = Some (Normal a, s1) /\ k a s1 = Some (Throw e, seen').
Proof.
  unfold bind. destruct (m seen) as [[[a|e'] s1]|]; try discriminate.
  - intros Hk. right. now exists a, s1.
  - intros [= <- <-]. now left.
Qed.

Lemma lift_inv {A} (c c' : completion A) seen seen' :
  lift c seen = Some (c', seen') -> c' = c /\ seen' = seen.
Proof. now intros [= <- <-]. Qed.

Lemma ret_inv {A} (a : A) c seen seen' :
  ret a seen = Some (c, seen') -> c = Normal a /\ seen' = seen.
Proof. now intros [= <- <-]. Qed.

(** ** The shape of results *)


(** ** Arrays *)













(** ** Functions *)

Lemma substring_prefix_length m s : String.length (String.substring 0 m s) <= m.
Proof.
  revert s. induction m as [|m IH]; intros [|c s]; simpl; try lia.
  specialize (IH s). lia.
Qed.

Lemma substring_prefix_short m s : String.length s <= m -> String.substring 0 m s = s.
Proof.
  revert s. induction m as [|m IH]; intros [|c s]; simpl; intros Hlen;
    try reflexivity; try lia.
  rewrite IH by lia. reflexivity.
Qed.

Lemma length_append_string s1 s2 :
  String.length (s1 ++ s2) = String.length s1 + String.length s2.
Proof. induction s1 as [|c s1 IH]; simpl; [reflexivity | now rewrite IH]. Qed.

Lemma append_empty_string (s : string) : s ++ "" = s.
Proof.
  induction s as [|c s IH]; [reflexivity |].
  change (String c (s ++ "") = String c s). now f_equal.
Qed.

(** X4. A function within the depth bound serializes to a Function record
    whose name is never empty ('anonymous' stands for a missing one) and
    whose source has at most 203 characters: the whole text when it has at
    most 200, else its first 200 followed by '...'. *)
Theorem function_source_is_capped
    Number_toString h maxDepth fuel a src name currentDepth seen :
  o_kind (h a) = KFunction (Normal src) ->
  is_error_like h (VObject a) = Normal false ->
  get_value h (VObject a) "name" = Normal name ->
  (currentDepth <= maxDepth)%Z -> a ∉ seen ->
  exists shown,
    serialize Number_toString h maxDepth (S fuel) (VObject a) currentDepth seen
    = Some (Normal (TObj [("__type", TStr "Function");
                          ("name", TVal (if truthy name then name else VString "anonymous"));
                          ("source", TStr shown)]), seen)
    /\ truthy (if truthy name then name else VString "anonymous") = true
    /\ String.length shown <= 203
    /\ (String.length src <= 200 -> shown = src)
    /\ (200 < String.length src -> shown = String.substring 0 200 src ++ "...").
Proof.
  intros Hk Herr Hname Hd Hn.
  exists (String.substring 0 200 src
          ++ (if (200 <? String.length src)%nat then "..." else "")).
  split; [| split; [| split; [| split]]].
  - rewrite serialize_S. unfold serialize_step.
    destruct (currentDepth >? maxDepth)%Z eqn:E; [lia |].
    rewrite Herr, bind_lift_normal. cbv beta iota.
    rewrite serialize_object_unseen by exact Hn.
    unfold serialize_unseen. cbv zeta. now rewrite Hk, Hname.
  - now destruct (truthy name) eqn:E.
  - rewrite length_append_string. pose proof (substring_prefix_length 200 src).
    destruct (200 <? String.length src)%nat; simpl; lia.
  - intros Hlen. rewrite (proj2 (Nat.ltb_ge 200 (String.length src))) by lia.
    cbv iota. rewrite append_empty_string. now apply substring_prefix_short.
  - intros Hlen. now rewrite (proj2 (Nat.ltb_lt 200 (String.length src))) by lia.
Qed.

(** Witness of [function_source_is_capped]: an unnamed function whose text
    has 250 characters. *)
Lemma function_source_is_capped_witness :
  exists shown,
    serialize any_printer gallery 3 1 (VObject long_function) 0 ∅
    = Some (Normal (TObj [("__type", TStr "Function");
                          ("name", TStr "anonymous");
                          ("source", TStr shown)]), ∅)
    /\ String.length shown <= 203.
Proof.
  destruct (function_source_is_capped any_printer gallery 3 0 long_function
              (String.concat "" (repeat "0123456789" 25)) (VString "") 0 ∅)
    as (shown & Hrun & _ & Hlen & _).
  - reflexivity.
  - reflexivity.
  - reflexivity.
  - lia.
  - set_solver.
  - exists shown. split; [exact Hrun | exact Hlen].
Defined.

(** ** Generic objects *)

Lemma assoc_assign_some fields key key' x :
  assoc key' (assign fields key x) <> None
  <-> assoc key' fields <> None \/ (key' = key /\ key <> "__proto__").
Proof.
  destruct (String.eqb key "__proto__") eqn:Ep.
  - unfold assign. rewrite Ep. apply String.eqb_eq in Ep. split; [now left |].
    intros [H|[_ H]]; [exact H | contradiction].
  - assert (Hp : key <> "__proto__")
      by (intros ->; rewrite String.eqb_refl in Ep; discriminate).
    destruct (String.eqb key key') eqn:E.
    + apply String.eqb_eq in E. subst key'. rewrite assoc_assign_eq by exact Hp.
      split; [now right | discriminate].
    + assert (Hne : key <> key')
        by (intros ->; rewrite String.eqb_refl in E; discriminate).
      rewrite assoc_assign_ne by exact Hne.
      split; [now left |]. intros [H|[Heq _]]; [exact H | congruence].
Qed.

Lemma serialize_props_keys Number_toString h rec value props :
  forall obj seen fields seen',
    serialize_props Number_toString h rec value props obj seen
    = Some (Normal fields, seen') ->
    forall key,
      assoc key fields <> None
      <-> assoc key obj <> None \/ (In key props /\ key <> "__proto__").
Proof.
  induction props as [|k rest IH]; intros obj seen fields seen' Hrun key; simpl in Hrun.
  - injection Hrun as <- _. simpl. tauto.
  - apply bind_normal_inv in Hrun as (c & s1 & _ & Hrun).
    destruct c as [t|e].
    + rewrite (IH _ _ _ _ Hrun key), assoc_assign_some. simpl.
      split; [intros [[H|[-> H]]|[H H']] | intros [H|[[->|H] H']]]; tauto.
    + apply bind_normal_inv in Hrun as (m & s2 & _ & Hrun).
      apply bind_normal_inv in Hrun as (s & s3 & _ & Hrun).
      rewrite (IH _ _ _ _ Hrun key), assoc_assign_some. simpl.
      split; [intros [[H|[-> H]]|[H H']] | intros [H|[[->|H] H']]]; tauto.
Qed.

(** X5. The first visit of a generic object within the depth bound, when it
    completes normally, gives a mapping whose keys are exactly the own
    property names of the object, enumerable or not, [__proto__] apart. *)
Theorem object_keeps_its_keys
    Number_toString h maxDepth fuel a currentDepth seen t seen' :
  o_kind (h a) = KOrdinary ->
  tracked h a = true -> (currentDepth <= maxDepth)%Z -> a ∉ seen ->
  serialize Number_toString h maxDepth fuel (VObject a) currentDepth seen
  = Some (Normal t, seen') ->
  exists fields,
    t = TObj fields
    /\ forall key,
         assoc key fields <> None
         <-> In key (getOwnPropertyNames h (VObject a)) /\ key <> "__proto__".
Proof.
  intros Hk Ht Hd Hn. destruct fuel as [|fuel]; [discriminate |].
  rewrite serialize_S. unfold serialize_step.
  destruct (currentDepth >? maxDepth)%Z eqn:E; [lia |].
  unfold tracked in Ht.
  destruct (is_error_like h (VObject a)) as [[|]|]; try discriminate.
  rewrite bind_lift_normal, serialize_object_unseen by exact Hn.
  unfold serialize_unseen. cbv zeta. rewrite Hk. intros Hrun.
  apply bind_normal_inv in Hrun as (u & s1 & _ & Hrun).
  apply bind_normal_inv in Hrun as (fields & s2 & Hloop & Hrun).
  injection Hrun as <- _. exists fields. split; [reflexivity |].
  intros key. rewrite (serialize_props_keys _ _ _ _ _ _ _ _ _ Hloop key). simpl.
  split; [intros [H|H]; [contradiction | exact H] | now right].
Qed.

(** Witness of [object_keeps_its_keys]: the object with a throwing getter
    [bad] and a property [ok]. *)
Lemma object_keeps_its_keys_witness :
  exists fields,
    TObj [("bad", TStr "[Unable to serialize: denied]"); ("ok", TVal (VNumber 1))]
    = TObj fields
    /\ forall key,
         assoc key fields <> None
         <-> In key (getOwnPropertyNames page (VObject guarded)) /\ key <> "__proto__".
Proof.
  apply (object_keeps_its_keys any_printer page 3 5 guarded 0 ∅ _ ({[guarded]} ∪ ∅)).
  - reflexivity.
  - reflexivity.
  - lia.
  - set_solver.
  - vm_compute. reflexivity.
Defined.

Lemma serialize_props_failed_key Number_toString h rec value k e m s :
  k <> "__proto__" ->
  get_value h value k = Throw e ->
  thrown_message h e = Normal m ->
  ToString Number_toString h m = Normal s ->
  forall props obj seen fields seen',
    serialize_props Number_toString h rec value props obj seen = Some (Normal fields, seen') ->
    In k props \/ assoc k obj = Some (TStr ("[Unable to serialize: " ++ s ++ "]")) ->
    assoc k fields = Some (TStr ("[Unable to serialize: " ++ s ++ "]")).
Proof.
  intros Hk Hget Hm Hs.
  induction props as [|key rest IH]; intros obj seen fields seen' Hrun Hin; simpl in Hrun.
  - injection Hrun as <- _. now destruct Hin.
  - destruct (String.eqb key k) eqn:E.
    + apply String.eqb_eq in E. subst key. revert Hrun.
      unfold bind at 1, try_. rewrite Hget, bind_lift_throw. cbv beta iota.
      unfold lift at 1. cbv beta iota. rewrite Hm, bind_lift_normal, Hs, bind_lift_normal.
      intros Hrun. apply (IH _ _ _ _ Hrun). right. now apply assoc_assign_eq.
    + assert (Hne : key <> k) by (intros ->; rewrite String.eqb_refl in E; discriminate).
      apply bind_normal_inv in Hrun as (c & s1 & _ & Hrun).
      assert (Hor : forall x,
                 In k rest \/ assoc k (assign obj key x)
                             = Some (TStr ("[Unable to serialize: " ++ s ++ "]"))).
      { intros x. destruct Hin as [[Heq|Hin]|Ha]; [contradiction | now left | right].
        now rewrite assoc_assign_ne. }
      destruct c as [t|e'].
      * apply (IH _ _ _ _ Hrun), Hor.
      * apply bind_normal_inv in Hrun as (m' & s2 & _ & Hrun).
        apply bind_normal_inv in Hrun as (s' & s3 & _ & Hrun).
        apply (IH _ _ _ _ Hrun), Hor.
Qed.

(** X6. In a generic object serialized within the depth bound, a property
    whose read throws is replaced, when the call completes normally, by the
    string '[Unable to serialize: ' + message + ']' made from the message
    of what was thrown. *)
Theorem failing_property_is_replaced
    Number_toString h maxDepth fuel a key e m s currentDepth seen t seen' :
  o_kind (h a) = KOrdinary ->
  tracked h a = true -> (currentDepth <= maxDepth)%Z -> a ∉ seen ->
  In key (getOwnPropertyNames h (VObject a)) -> key <> "__proto__" ->
  get_value h (VObject a) key = Throw e ->
  thrown_message h e = Normal m ->
  ToString Number_toString h m = Normal s ->
  serialize Number_toString h maxDepth fuel (VObject a) currentDepth seen
  = Some (Normal t, seen') ->
  field key t = Some (TStr ("[Unable to serialize: " ++ s ++ "]")).
Proof.
  intros Hk Ht Hd Hn Hin Hp Hget Hm Hs. destruct fuel as [|fuel]; [discriminate |].
  rewrite serialize_S. unfold serialize_step.
  destruct (currentDepth >? maxDepth)%Z eqn:E; [lia |].
  unfold tracked in Ht.
  destruct (is_error_like h (VObject a)) as [[|]|]; try discriminate.
  rewrite bind_lift_normal, serialize_object_unseen by exact Hn.
  unfold serialize_unseen. cbv zeta. rewrite Hk. intros Hrun.
  apply bind_normal_inv in Hrun as (u & s1 & _ & Hrun).
  apply bind_normal_inv in Hrun as (fields & s2 & Hloop & Hrun).
  injection Hrun as <- _. unfold field.
  eapply serialize_props_failed_key; [exact Hp | exact Hget | exact Hm | exact Hs
                                     | exact Hloop | left; exact Hin].
Qed.

(** Witness of [failing_property_is_replaced]: the getter [bad] that throws
    an error with the message 'denied'. *)
Lemma failing_property_is_replaced_witness :
  field "bad" (TObj [("bad", TStr "[Unable to serialize: denied]");
                     ("ok", TVal (VNumber 1))])
  = Some (TStr "[Unable to serialize: denied]").
Proof.
  apply (failing_property_is_replaced any_printer page 3 5 guarded "bad"
           (NativeError "Error" "denied") (VString "denied") "denied" 0 ∅ _
           ({[guarded]} ∪ ∅)).
  - reflexivity.
  - reflexivity.
  - lia.
  - set_solver.
  - left. reflexivity.
  - discriminate.
  - reflexivity.
  - reflexivity.
  - reflexivity.
  - vm_compute. reflexivity.
Defined.

(** ** Pages that throw error objects only *)

Section ErrorsOnly.

Variable Number_toString : float -> string.
Variable h : heap.
Variable maxDepth : Z.
Hypothesis Hpage : page_throws_errors h.

Lemma get_value_throws_error v key : throws_error (get_value h v key).
Proof. destruct v; try exact I. apply (Hpage a). Qed.

Lemma ToString_throws_error v : throws_error (ToString Number_toString h v).
Proof. destruct v; try exact I. apply (Hpage a). Qed.

Lemma cbind_throws_error {A B} (c : completion A) (k : A -> completion B) :
  throws_error c -> (forall a, throws_error (k a)) -> throws_error (cbind c k).
Proof. intros Hc Hk. destruct c as [a|e]; [apply Hk | exact Hc]. Qed.

Lemma is_error_like_throws_error v : throws_error (is_error_like h v).
Proof.
  unfold is_error_like.
  destruct (instanceof_Error h v); [exact I |].
  destruct (negb (truthy v)); [exact I |].
  apply cbind_throws_error; [apply get_value_throws_error | intros c].
  destruct (negb (truthy c)); [exact I |].
  apply cbind_throws_error; [apply get_value_throws_error | intros n; exact I].
Qed.

Lemma getErrorDetails_throws_error v : throws_error (getErrorDetails h v).
Proof.
  unfold getErrorDetails.
  repeat (apply cbind_throws_error; [apply get_value_throws_error | intros ?]).
  exact I.
Qed.

Lemma fresh_error_message e :
  fresh_error e -> exists m, thrown_message h e = Normal (VString m).
Proof. destruct e as [v|n m]; [contradiction | intros _; now exists m]. Qed.

Lemma errs_ret {A} (a : A) : errs (ret a).
Proof. intros seen e seen' Hrun. discriminate. Qed.

Lemma errs_lift {A} (c : completion A) : throws_error c -> errs (lift c).
Proof. intros Hc seen e seen' [= -> _]. exact Hc. Qed.

Lemma errs_bind {A B} (m : M A) (k : A -> M B) :
  errs m -> (forall a, errs (k a)) -> errs (bind m k).
Proof.
  intros Hm Hk seen e seen' Hrun.
  apply bind_throw_inv in Hrun as [Hrun|(a & s1 & _ & Hrun)];
    [eapply Hm, Hrun | eapply Hk, Hrun].
Qed.

Lemma map_items_errs (rec : value -> M tvalue) items :
  (forall v, errs (rec v)) ->
  (forall s, In (Some s) items -> throws_error (read s)) ->
  errs (map_items rec items).
Proof.
  intros Hrec Hitems.
  induction items as [|[s|] rest IH]; simpl.
  - apply errs_ret.
  - apply errs_bind; [apply errs_lift, Hitems; now left | intros v].
    apply errs_bind; [apply Hrec | intros t].
    apply errs_bind; [apply IH; intros s' Hs'; apply Hitems; now right | intros r].
    apply errs_ret.
  - apply errs_bind; [apply IH; intros s' Hs'; apply Hitems; now right | intros r].
    apply errs_ret.
Qed.

(** The loop over the properties never throws. *)
Lemma serialize_props_completes rec value props :
  (forall v, errs (rec v)) ->
  forall obj seen c seen',
    serialize_props Number_toString h rec value props obj seen = Some (c, seen') ->
    exists fields, c = Normal fields.
Proof.
  intros Hrec. induction props as [|key rest IH]; intros obj seen c seen'; simpl.
  - intros [= <- _]. now eexists.
  - unfold bind at 1, try_.
    destruct ((let* v := lift (get_value h value key) in rec v) seen)
      as [[[t|e] s1]|] eqn:Hturn; [apply IH | | discriminate].
    assert (He : fresh_error e).
    { revert Hturn. apply errs_bind; [apply errs_lift, get_value_throws_error | apply Hrec]. }
    destruct (fresh_error_message e He) as [m Hm].
    rewrite Hm, bind_lift_normal. cbn [ToString]. rewrite bind_lift_normal. apply IH.
Qed.

Lemma serialize_unseen_errs rec a :
  (forall v, errs (rec v)) -> errs (serialize_unseen Number_toString h rec a).
Proof.
  intros Hrec. unfold serialize_unseen. cbv zeta.
  destruct (Hpage a) as (Hget & Hitems & Hdate & Hfun & _).
  destruct (o_kind (h a)) as [|iso| |element|src|items|] eqn:Hk.
  - apply errs_ret.
  - apply errs_bind; [apply errs_lift, (Hdate iso eq_refl) | intros ?; apply errs_ret].
  - repeat (apply errs_bind; [apply errs_lift, get_value_throws_error | intros ?]).
    apply errs_ret.
  - repeat (apply errs_bind;
            [first [apply errs_lift, get_value_throws_error
                   | destruct element;
                     [apply errs_lift, get_value_throws_error | apply errs_ret]]
            | intros ?]).
    apply errs_ret.
  - apply errs_bind; [apply errs_lift, get_value_throws_error | intros ?].
    repeat (apply errs_bind; [apply errs_lift, (Hfun src eq_refl) | intros ?]).
    apply errs_ret.
  - apply errs_bind; [intros seen e seen' Hrun; discriminate | intros _].
    apply errs_bind; [| intros r; apply errs_ret].
    apply map_items_errs; [exact Hrec | intros s Hs; now apply (Hitems items)].
  - apply errs_bind; [intros seen e seen' Hrun; discriminate | intros _].
    apply errs_bind; [| intros obj; apply errs_ret].
    intros seen e seen' Hrun.
    apply serialize_props_completes in Hrun as [fields Hf]; [discriminate | exact Hrec].
Qed.

Lemma serialize_errs fuel :
  forall value currentDepth,
    errs (serialize Number_toString h maxDepth fuel value currentDepth).
Proof.
  induction fuel as [|fuel IH]; intros v d; [intros seen e seen' Hrun; discriminate |].
  rewrite serialize_S. unfold serialize_step.
  destruct (d >? maxDepth)%Z; [apply errs_ret |].
  destruct v as [| |b|x|s|n|sd|a]; try apply errs_ret.
  all: apply errs_bind; [apply errs_lift, is_error_like_throws_error | intros [|]];
    try (apply errs_lift, getErrorDetails_throws_error); try apply errs_ret.
  - destruct (is_nan x); [apply errs_ret |].
    destruct (negb (is_finite x)); apply errs_ret.
  - unfold serialize_object.
    apply errs_bind; [intros seen e seen' Hrun; discriminate | intros [|]];
      [apply errs_ret |].
    apply serialize_unseen_errs. intros w. apply IH.
Qed.

End ErrorsOnly.

Lemma generic_object_completes
    Number_toString h maxDepth fuel a currentDepth seen c seen' :
  page_throws_errors h ->
  o_kind (h a) = KOrdinary -> tracked h a = true ->
  serialize Number_toString h maxDepth fuel (VObject a) currentDepth seen = Some (c, seen') ->
  exists t, c = Normal t.
Proof.
  intros Hpage Hk Ht. destruct fuel as [|fuel]; [discriminate |].
  rewrite serialize_S. unfold serialize_step.
  destruct (currentDepth >? maxDepth)%Z; [intros [= <- _]; now eexists |].
  unfold tracked in Ht.
  destruct (is_error_like h (VObject a)) as [[|]|]; try discriminate.
  rewrite bind_lift_normal. unfold serialize_object, bind at 1, seen_has. cbv beta iota.
  destruct (bool_decide (a ∈ seen)); [intros [= <- _]; now eexists |].
  unfold serialize_unseen. cbv zeta. rewrite Hk.
  unfold bind at 1, seen_add. cbv beta iota. unfold bind at 1.
  destruct (serialize_props _ _ _ _ _ _ _) as [[c' s1]|] eqn:Hloop; [| discriminate].
  apply serialize_props_completes in Hloop as [fields ->];
    [| exact Hpage | intros v; apply serialize_errs; exact Hpage].
  intros [= <- _]. now eexists.
Qed.

(** X7. On a page where whatever a read or a host method throws is an error
    object, serializing a generic object returns a transport value and never
    throws, at any depth and from any [seen]: each failure is caught at its
    property (lines 129-131). *)
Theorem generic_object_never_throws
    Number_toString h maxDepth a currentDepth seen :
  page_throws_errors h ->
  o_kind (h a) = KOrdinary -> tracked h a = true ->
  exists t seen', forall extra,
    serialize Number_toString h maxDepth (budget currentDepth maxDepth + extra)
      (VObject a) currentDepth seen
    = Some (Normal t, seen').
Proof.
  intros Hpage Hk Ht.
  destruct (serialize_stable Number_toString h maxDepth
              (Z.to_nat (maxDepth + 1 - currentDepth)) currentDepth (VObject a)
              (Nat.le_refl _) seen) as [[c seen'] Hrun].
  destruct (generic_object_completes Number_toString h maxDepth _ a currentDepth seen
              c seen' Hpage Hk Ht (Hrun _ (Nat.le_refl _))) as [t ->].
  exists t, seen'. intros extra. unfold budget. simpl. apply Hrun. lia.
Qed.

(** X8. On a page where whatever a read or a host method throws is an
    error object, [serializeForPostMessage] returns a transport value,
    without raising, for every argument that [String] can convert. *)
Theorem serializeForPostMessage_returns
    Number_toString h arg depth maxDepth str :
  page_throws_errors h ->
  String_ Number_toString h arg = Normal str ->
  exists t, serializeForPostMessage Number_toString h arg depth maxDepth = Some (Normal t).
Proof.
  intros Hpage Hstr.
  destruct (serialize_stable Number_toString h maxDepth
              (Z.to_nat (maxDepth + 1 - depth)) depth arg (Nat.le_refl _) ∅)
    as [[c seen'] Hrun].
  specialize (Hrun _ (Nat.le_refl _)).
  unfold serializeForPostMessage, run_serialize, budget. rewrite Hrun.
  destruct c as [t|e]; [now eexists |].
  apply serialize_errs in Hrun; [| exact Hpage].
  destruct (fresh_error_message h e Hrun) as [m Hm].
  rewrite Hm, Hstr. now eexists.
Qed.

Lemma completion_ok_sound {A} (c : completion A) :
  completion_ok c = true -> throws_error c.
Proof. destruct c as [a|[v|n m]]; [intros _; exact I | discriminate | intros _; exact I]. Qed.

Lemma assoc_forallb {A} (P : A -> bool) key (l : list (string * A)) x :
  forallb (fun kv => P (snd kv)) l = true -> assoc key l = Some x -> P x = true.
Proof.
  induction l as [|[k y] rest IH]; simpl; [discriminate |].
  intros Hall. apply andb_prop in Hall as [Hy Hrest].
  destruct (String.eqb k key); [now intros [= <-] | now apply IH].
Qed.

Lemma object_throws_errors_sound h :
  (forall a, object_throws_errors (h a) = true) -> page_throws_errors h.
Proof.
  intros Hall a. specialize (Hall a). unfold object_throws_errors in Hall.
  apply andb_prop in Hall as [Hall Hstr]. apply andb_prop in Hall as [Hall Hkind].
  apply andb_prop in Hall as [Hown Hinh].
  split; [| split; [| split; [| split]]].
  - intros key. unfold get.
    destruct (assoc key (own_slots (h a))) as [s|] eqn:E.
    { apply completion_ok_sound.
      apply (assoc_forallb (fun s => completion_ok (read s)) _ _ _ Hown E). }
    destruct (assoc key (o_inherited (h a))) as [s|] eqn:E'; [| exact I].
    apply completion_ok_sound.
    apply (assoc_forallb (fun s => completion_ok (read s)) _ _ _ Hinh E').
  - intros items s Hk Hin. rewrite Hk in Hkind. apply completion_ok_sound.
    rewrite forallb_forall in Hkind. apply (Hkind (Some s) Hin).
  - intros c Hk. rewrite Hk in Hkind. now apply completion_ok_sound.
  - intros c Hk. rewrite Hk in Hkind. now apply completion_ok_sound.
  - now apply completion_ok_sound.
Qed.

Lemma sample_page_throws_errors : page_throws_errors page.
Proof.
  apply object_throws_errors_sound. intros a.
  do 24 (destruct a as [|a]; [reflexivity |]). reflexivity.
Qed.

(** Witness of [generic_object_never_throws]: the object with a throwing
    getter, on the sample page. *)
Lemma generic_object_never_throws_witness :
  exists t seen', forall extra,
    serialize any_printer page 3 (budget 0 3 + extra) (VObject guarded) 0 ∅
    = Some (Normal t, seen').
Proof.
  apply (generic_object_never_throws any_printer page 3 guarded 0 ∅).
  - exact sample_page_throws_errors.
  - reflexivity.
  - reflexivity.
Defined.

(** Witness of [serializeForPostMessage_returns]: the array
    [[new Date(NaN), 1]], whose serialization fails inside and is caught. *)
Lemma serializeForPostMessage_returns_witness :
  exists t,
    serializeForPostMessage any_printer page (VObject date_and_one) 0 3 = Some (Normal t).
Proof.
  apply (serializeForPostMessage_returns any_printer page (VObject date_and_one) 0 3
           "Invalid Date,1").
  - exact sample_page_throws_errors.
  - reflexivity.
Defined.

(** ** The nesting of results *)

Lemma nests_within_leaf k (v : value) : nests_within k (TVal v).
Proof. intros n. destruct v; simpl; intros [= <-]; lia. Qed.

Lemma nests_within_TArr k items :
  Forall (nests_within k) items -> nests_within (S k) (TArr items).
Proof.
  intros Hall n. simpl.
  destruct (fold_right _ _ items) as [m|] eqn:Hfold; [| discriminate].
  intros [= <-]. apply le_n_S. revert m Hfold.
  induction Hall as [|x rest Hx _ IH]; simpl; intros m.
  - intros [= <-]. lia.
  - unfold max_known at 1. destruct (nesting x) as [a|] eqn:Ha; [| discriminate].
    destruct (fold_right _ _ rest) as [b|]; [| discriminate].
    intros [= <-]. specialize (Hx a Ha). specialize (IH b eq_refl). lia.
Qed.

Lemma nests_within_TObj k fields :
  Forall (fun kv : string * tvalue => nests_within k (snd kv)) fields ->
  nests_within (S k) (TObj fields).
Proof.
  intros Hall n. simpl.
  destruct (fold_right _ _ fields) as [m|] eqn:Hfold; [| discriminate].
  intros [= <-]. apply le_n_S. revert m Hfold.
  induction Hall as [|x rest Hx _ IH]; simpl; intros m.
  - intros [= <-]. lia.
  - unfold max_known at 1. destruct (nesting (snd x)) as [a|] eqn:Ha; [| discriminate].
    destruct (fold_right _ _ rest) as [b|]; [| discriminate].
    intros [= <-]. specialize (Hx a Ha). specialize (IH b eq_refl). lia.
Qed.

Lemma nests_within_le k k' t : k <= k' -> nests_within k t -> nests_within k' t.
Proof. intros Hk Ht n Hn. specialize (Ht n Hn). lia. Qed.

Lemma assign_nests_within k fields key x :
  Forall (fun kv : string * tvalue => nests_within k (snd kv)) fields ->
  nests_within k x ->
  Forall (fun kv : string * tvalue => nests_within k (snd kv)) (assign fields key x).
Proof.
  intros Hall Hx. unfold assign.
  destruct (String.eqb key "__proto__"); [exact Hall |].
  induction Hall as [|[k0 y] rest Hy Hrest IH]; simpl.
  - constructor; [exact Hx | constructor].
  - destruct (String.eqb k0 key); constructor; assumption.
Qed.

Lemma getErrorDetails_nests_within h v t :
  getErrorDetails h v = Normal t -> nests_within 1 t.
Proof.
  unfold getErrorDetails, cbind.
  destruct (get_value h v "name") as [name|]; [| discriminate].
  destruct (get_value h v "message") as [message|]; [| discriminate].
  destruct (get_value h v "stack") as [stack|]; [| discriminate].
  intros [= <-]. apply nests_within_TObj.
  generalize (getOwnPropertyNames h v).
  assert (Hstart : Forall (fun kv : string * tvalue => nests_within 0 (snd kv))
            [("__type", TStr "Error"); ("name", TVal name);
             ("message", TVal message); ("stack", TVal stack)])
    by (repeat constructor; apply nests_within_leaf).
  revert Hstart. generalize [("__type", TStr "Error"); ("name", TVal name);
                             ("message", TVal message); ("stack", TVal stack)].
  intros acc Hacc keys. revert acc Hacc.
  induction keys as [|key rest IH]; intros acc Hacc; [exact Hacc |].
  simpl. apply IH. destruct (standard_key key); [exact Hacc |].
  destruct (get_value h v key);
    (apply assign_nests_within; [exact Hacc | apply nests_within_leaf]).
Qed.

Lemma map_items_nests_within k (rec : value -> M tvalue) items :
  (forall v s t s', rec v s = Some (Normal t, s') -> nests_within k t) ->
  forall seen r seen',
    map_items rec items seen = Some (Normal r, seen') ->
    Forall (nests_within k) r.
Proof.
  intros Hrec. induction items as [|[s|] rest IH]; intros seen r seen' Hrun; simpl in Hrun.
  - injection Hrun as <- _. constructor.
  - apply bind_normal_inv in Hrun as (v & s1 & _ & Hrun).
    apply bind_normal_inv in Hrun as (t & s2 & Ht & Hrun).
    apply bind_normal_inv in Hrun as (r' & s3 & Hrest & Hrun).
    injection Hrun as <- _. constructor; [eapply Hrec, Ht | eapply IH, Hrest].
  - apply bind_normal_inv in Hrun as (r' & s1 & Hrest & Hrun).
    injection Hrun as <- _. constructor; [| eapply IH, Hrest].
    intros n [= <-]. lia.
Qed.

Lemma serialize_props_nests_within Number_toString h k rec value props :
  (forall v s t s', rec v s = Some (Normal t, s') -> nests_within k t) ->
  forall obj seen fields seen',
    Forall (fun kv : string * tvalue => nests_within k (snd kv)) obj ->
    serialize_props Number_toString h rec value props obj seen
    = Some (Normal fields, seen') ->
    Forall (fun kv : string * tvalue => nests_within k (snd kv)) fields.
Proof.
  intros Hrec. induction props as [|key rest IH];
    intros obj seen fields seen' Hobj Hrun; simpl in Hrun.
  - now injection Hrun as <- _.
  - apply bind_normal_inv in Hrun as (c & s1 & Hturn & Hrun).
    destruct c as [t|e].
    + assert (Ht : nests_within k t).
      { revert Hturn. unfold try_.
        destruct ((let* v := lift (get_value h value key) in rec v) seen)
          as [[c' s']|] eqn:Hinner; [| discriminate].
        intros [= -> ->].
        apply bind_normal_inv in Hinner as (v & s2 & _ & Hv). eapply Hrec, Hv. }
      apply (IH _ _ _ _ (assign_nests_within k obj key t Hobj Ht) Hrun).
    + apply bind_normal_inv in Hrun as (m & s2 & _ & Hrun).
      apply bind_normal_inv in Hrun as (s & s3 & _ & Hrun).
      refine (IH _ _ _ _ (assign_nests_within k obj key _ Hobj _) Hrun).
      apply nests_within_leaf.
Qed.

Lemma serialize_nests_within Number_toString h maxDepth fuel :
  forall value currentDepth seen t seen',
    serialize Number_toString h maxDepth fuel value currentDepth seen
    = Some (Normal t, seen') ->
    nests_within (Z.to_nat (maxDepth + 1 - currentDepth)) t.
Proof.
  induction fuel as [|fuel IH]; intros v d seen t seen'; [discriminate |].
  rewrite serialize_S. unfold serialize_step.
  destruct (d >? maxDepth)%Z eqn:E; [intros [= <- _]; apply nests_within_leaf |].
  assert (Hone : 1 <= Z.to_nat (maxDepth + 1 - d)) by lia.
  assert (Hleaf : forall (u : value) s s',
             ret (TVal u) s = Some (Normal t, s') ->
             nests_within (Z.to_nat (maxDepth + 1 - d)) t)
    by (intros u s s' [= <- _]; apply nests_within_leaf).
  destruct v as [| |b|x|s|n|sd|a]; try apply Hleaf.
  all: intros Hrun; apply bind_normal_inv in Hrun as (err & s1 & _ & Hrun).
  all: destruct err;
    [apply lift_inv in Hrun as [Hrun _]; symmetry in Hrun;
     apply getErrorDetails_nests_within in Hrun;
     exact (nests_within_le _ _ _ Hone Hrun) |].
  1-5: try (revert Hrun; repeat match goal with
             | |- context [if ?c then _ else _] => destruct c
             end; intros [= <- _]; apply nests_within_leaf).
  revert Hrun. unfold serialize_object. intros Hrun.
  apply bind_normal_inv in Hrun as (cyc & s2 & _ & Hrun).
  destruct cyc; [injection Hrun as <- _; apply nests_within_leaf |].
  assert (Hrec : forall w s t' s',
             serialize Number_toString h maxDepth fuel w (d + 1) s = Some (Normal t', s') ->
             nests_within (Z.to_nat (maxDepth + 1 - d) - 1) t').
  { intros w s t' s' Hw. apply IH in Hw. eapply nests_within_le, Hw. lia. }
  assert (Hstep : S (Z.to_nat (maxDepth + 1 - d) - 1) = Z.to_nat (maxDepth + 1 - d))
    by lia.
  revert Hrun. unfold serialize_unseen. cbv zeta.
  destruct (o_kind (h a)) as [|iso| |element|src|items|]; intros Hrun.
  6: { apply bind_normal_inv in Hrun as (u & s3 & _ & Hrun).
       apply bind_normal_inv in Hrun as (r & s4 & Hmap & Hrun).
       injection Hrun as <- _.
       apply (map_items_nests_within _ _ _ Hrec) in Hmap.
       apply nests_within_TArr in Hmap. now rewrite Hstep in Hmap. }
  6: { apply bind_normal_inv in Hrun as (u & s3 & _ & Hrun).
       apply bind_normal_inv in Hrun as (fields & s4 & Hloop & Hrun).
       injection Hrun as <- _.
       apply (serialize_props_nests_within _ _ _ _ _ _ Hrec) in Hloop; [| constructor].
       apply nests_within_TObj in Hloop. now rewrite Hstep in Hloop. }
  all: repeat (apply bind_normal_inv in Hrun as (? & ? & _ & Hrun)).
  all: injection Hrun as <- _.
  all: apply (nests_within_le 1); [exact Hone |].
  all: apply nests_within_TObj; repeat constructor; apply nests_within_leaf.
Qed.

(** X9. The result is depth-bounded as far as the serializer made it: a
    value returned by [serializeForPostMessage] that holds no page object
    left unserialized nests arrays and mappings at most
    [maxDepth + 1 - depth] deep (and at least one level is allowed for: a
    tagged record); with the default depths, at most 4 deep.  Nothing is
    stated of a result that holds a page object, such as the error record
    of line 28 can: the serializer never looks into it. *)
Theorem result_is_depth_bounded Number_toString h arg depth maxDepth t n :
  serializeForPostMessage Number_toString h arg depth maxDepth = Some (Normal t) ->
  nesting t = Some n ->
  n <= Nat.max 1 (Z.to_nat (maxDepth + 1 - depth))
  /\ (depth = 0%Z -> maxDepth = 3%Z -> n <= 4).
Proof.
  intros Hrun Hn.
  assert (Hb : n <= Nat.max 1 (Z.to_nat (maxDepth + 1 - depth))).
  { revert Hrun. unfold serializeForPostMessage, run_serialize.
    destruct (serialize _ _ _ _ _ _ _) as [[[t'|e] s1]|] eqn:Hinner; [| | discriminate].
    - intros [= <-]. apply serialize_nests_within in Hinner.
      specialize (Hinner n Hn). lia.
    - unfold cbind. destruct (thrown_message h e) as [message|]; [| discriminate].
      destruct (String_ Number_toString h arg) as [str|]; [| discriminate].
      intros [= <-].
      assert (Hrecord : nests_within 1
                (TObj [("__type", TStr "SerializationError");
                       ("message", TVal message); ("value", TStr str)]))
        by (apply nests_within_TObj; repeat constructor; apply nests_within_leaf).
      specialize (Hrecord n Hn). lia. }
  split; [exact Hb |]. intros -> ->. simpl in Hb. lia.
Qed.

(** Witness of [result_is_depth_bounded]: the chain of depth 4 under the
    default depths, whose result nests exactly 4 deep. *)
Lemma result_is_depth_bounded_witness :
  serializeForPostMessage any_printer (chain 4) (VObject 0) 0 3
  = Some (Normal (TObj [("next", TObj [("next", TObj [("next",
                    TObj [("next", depth_marker)])])])]))
  /\ nesting (TObj [("next", TObj [("next", TObj [("next",
                TObj [("next", depth_marker)])])])]) = Some 4
  /\ 4 <= 4.
Proof.
  split; [vm_compute; reflexivity |]. split; [reflexivity |].
  refine (proj2 (result_is_depth_bounded any_printer (chain 4) (VObject 0) 0 3
                   (TObj [("next", TObj [("next", TObj [("next",
                      TObj [("next", depth_marker)])])])]) 4 _ _) eq_refl eq_refl).
  - vm_compute. reflexivity.
  - reflexivity.
Defined.

(** * Properties of the interceptors and the listeners *)

Lemma serializeForPostMessage_some Number_toString h arg depth maxDepth :
  exists c, serializeForPostMessage Number_toString h arg depth maxDepth = Some c.
Proof.
  destruct (serialize_stable Number_toString h maxDepth
              (Z.to_nat (maxDepth + 1 - depth)) depth arg (Nat.le_refl _) ∅)
    as [[c seen'] Hrun].
  specialize (Hrun _ (Nat.le_refl _)).
  unfold serializeForPostMessage, run_serialize, budget. rewrite Hrun.
  destruct c; eexists; reflexivity.
Qed.

Lemma serialize_args_some Number_toString h args :
  exists c, serialize_args Number_toString h args = Some c.
Proof.
  induction args as [|arg rest [c IH]]; simpl; [now eexists |].
  unfold serializeForPostMessage_default.
  destruct (serializeForPostMessage_some Number_toString h arg 0 3) as [[t|e] ->];
    [| now eexists].
  rewrite IH. destruct c; now eexists.
Qed.

Lemma serialize_args_normal Number_toString h args ts :
  serialize_args Number_toString h args = Some (Normal ts)
  <-> Forall2 (fun arg t =>
                 serializeForPostMessage_default Number_toString h arg = Some (Normal t))
        args ts.
Proof.
  revert ts. induction args as [|arg rest IH]; intros ts; simpl.
  - split; [intros [= <-]; constructor | intros Hall; now inversion Hall].
  - destruct (serializeForPostMessage_default Number_toString h arg) as [[t|e]|] eqn:Harg.
    + destruct (serialize_args Number_toString h rest) as [[ts'|e]|] eqn:Hrest.
      * split.
        -- intros [= <-]. constructor; [exact Harg | now apply IH].
        -- intros Hall. inversion Hall as [|? t' ? ts'' Ht Hts]; subst.
           apply IH in Hts. congruence.
      * split; [discriminate |]. intros Hall.
        inversion Hall as [|? t' ? ts'' Ht Hts]; subst. apply IH in Hts. discriminate.
      * split; [discriminate |]. intros Hall.
        inversion Hall as [|? t' ? ts'' Ht Hts]; subst. apply IH in Hts. discriminate.
    + split; [discriminate |]. intros Hall. inversion Hall; subst. congruence.
    + split; [discriminate |]. intros Hall. inversion Hall; subst. congruence.
Qed.

(** X11. If the saved console methods do not throw, the function installed in
    their place never throws to the code that logs, whatever the arguments,
    the page and the parent window do. *)
Theorem interceptConsole_never_raises Number_toString h w l args calls :
  (forall l' printed_args, original_completes w l' printed_args = Normal tt) ->
  exists calls',
    interceptConsole Number_toString h w l args calls = Some (Normal tt, calls').
Proof.
  intros Hconsole.
  unfold interceptConsole, try_catch, hbind, call_original, postMessage, call, hlift, hret.
  rewrite !Hconsole.
  destruct (serialize_args_some Number_toString h args) as [[ts|e] ->].
  - destruct (framed w); [| now eexists].
    destruct (postMessage_completes w _) as [[]|e]; [now eexists |].
    cbv beta iota. rewrite ?Hconsole. now eexists.
  - cbv beta iota. rewrite ?Hconsole. now eexists.
Qed.

Lemma relay_block_calls Number_toString h w l args calls r calls1 :
  hbind (call_original w l (map PValue args)) (fun _ =>
  hbind (hlift (serialize_args Number_toString h args)) (fun serializedArgs =>
  if framed w then postMessage w (console_message w l serializedArgs) else hret tt))
    calls = Some (r, calls1) ->
  exists posts,
    calls1 = (calls ++ ConsoleCall l (map PValue args) :: posts)%list
    /\ (framed w = false -> posts = []).
Proof.
  unfold hbind, call_original, postMessage, call, hlift, hret.
  destruct (original_completes w l (map PValue args)) as [[]|e0].
  - destruct (serialize_args Number_toString h args) as [[ts|e]|]; [| | discriminate].
    + destruct (framed w).
      * intros [= _ <-]. exists [PostMessage (console_message w l ts)].
        split; [now rewrite <- app_assoc | discriminate].
      * intros [= _ <-]. exists []. split; [reflexivity | reflexivity].
    + intros [= _ <-]. exists []. split; [reflexivity | reflexivity].
  - intros [= _ <-]. exists []. split; [reflexivity | reflexivity].
Qed.

Lemma report_block_calls w l printed_args report calls1 c calls' :
  hbind (call_original w l printed_args) (fun _ => call_original w LError report) calls1
  = Some (c, calls') ->
  calls' = (calls1 ++ [ConsoleCall l printed_args])%list
  \/ calls' = (calls1 ++ [ConsoleCall l printed_args; ConsoleCall LError report])%list.
Proof.
  unfold hbind, call_original, call.
  destruct (original_completes w l printed_args) as [[]|e0]; intros [= _ <-].
  - right. now rewrite <- app_assoc.
  - now left.
Qed.

Lemma interceptConsole_calls Number_toString h w l args calls c calls' :
  interceptConsole Number_toString h w l args calls = Some (c, calls') ->
  exists rest,
    calls' = (calls ++ ConsoleCall l (map PValue args) :: rest)%list
    /\ (framed w = false -> forall message, ~ In (PostMessage message) rest).
Proof.
  unfold interceptConsole, try_catch.
  match goal with
  | |- match ?m calls with _ => _ end = _ -> _ =>
      destruct (m calls) as [[[[]|e] calls1]|] eqn:Htry; [| | discriminate]
  end.
  - intros [= _ <-]. apply relay_block_calls in Htry as (posts & -> & Hposts).
    exists posts. split; [reflexivity |].
    intros Hf message Hin. now rewrite (Hposts Hf) in Hin.
  - intros Hreport. apply relay_block_calls in Htry as (posts & -> & Hposts).
    apply report_block_calls in Hreport as [-> | ->];
      rewrite <- app_assoc; simpl; eexists; (split; [reflexivity |]).
    all: intros Hf message Hin; rewrite (Hposts Hf) in Hin; simpl in Hin.
    all: repeat (destruct Hin as [Hin|Hin]; [discriminate |]); exact Hin.
Qed.

Lemma interceptConsole_some Number_toString h w l args calls :
  exists r, interceptConsole Number_toString h w l args calls = Some r.
Proof.
  unfold interceptConsole, try_catch, hbind, call_original, postMessage, call, hlift, hret.
  destruct (original_completes w l (map PValue args)) as [[]|e0]; [| now eexists].
  destruct (serialize_args_some Number_toString h args) as [[ts|e] ->].
  - destruct (framed w); [| now eexists].
    destruct (postMessage_completes w _) as [[]|e]; [now eexists |].
    cbv beta iota. destruct (original_completes w LError _) as [[]|e1]; now eexists.
  - cbv beta iota. destruct (original_completes w LError _) as [[]|e1]; now eexists.
Qed.

(** X12. Every call of the installed function returns or throws after
    calling, first of all, the saved method with the arguments as they are:
    the page's own console call is never skipped; and outside a frame no
    message is posted. *)
Theorem interceptConsole_keeps_original_output Number_toString h w l args calls :
  exists c rest,
    interceptConsole Number_toString h w l args calls
    = Some (c, (calls ++ ConsoleCall l (map PValue args) :: rest)%list)
    /\ (framed w = false -> forall message, ~ In (PostMessage message) rest).
Proof.
  destruct (interceptConsole_some Number_toString h w l args calls) as [[c calls'] Hrun].
  destruct (interceptConsole_calls _ _ _ _ _ _ _ _ Hrun) as (rest & -> & Hposts).
  now exists c, rest.
Qed.

(** X13. Inside a frame, when the saved method and the posting complete and
    every argument serializes, one call of the installed function makes
    exactly two calls: the saved method, then one message whose [args] are
    the serialized arguments, as many and in the same order. *)
Theorem interceptConsole_relays Number_toString h w l args ts calls :
  framed w = true ->
  original_completes w l (map PValue args) = Normal tt ->
  Forall2 (fun arg t =>
             serializeForPostMessage_default Number_toString h arg = Some (Normal t))
    args ts ->
  postMessage_completes w (console_message w l ts) = Normal tt ->
  interceptConsole Number_toString h w l args calls
  = Some (Normal tt,
          (calls ++ [ConsoleCall l (map PValue args);
                     PostMessage (console_message w l ts)])%list)
  /\ length ts = length args
  /\ field "args" (console_message w l ts) = Some (TArr ts).
Proof.
  intros Hframed Hconsole Hargs Hpost.
  split; [| split; [symmetry; eapply Forall2_length, Hargs | reflexivity]].
  apply serialize_args_normal in Hargs.
  unfold interceptConsole, try_catch, hbind, call_original, postMessage, call, hlift, hret.
  rewrite Hconsole, Hargs, Hframed, Hpost. now rewrite <- app_assoc.
Qed.

(** Witness of [interceptConsole_relays]: [console.log([3, 1, 2], 'done')]. *)
Lemma interceptConsole_relays_witness :
  interceptConsole any_printer gallery calm_window LLog
    [VObject three_numbers; VString "done"] []
  = Some (Normal tt,
          ([] ++ [ConsoleCall LLog (map PValue [VObject three_numbers; VString "done"]);
                  PostMessage (console_message calm_window LLog
                     [TArr [TVal (VNumber 3); TVal (VNumber 1); TVal (VNumber 2)];
                      TVal (VString "done")])])%list)
  /\ length [TArr [TVal (VNumber 3); TVal (VNumber 1); TVal (VNumber 2)];
             TVal (VString "done")]
     = length [VObject three_numbers; VString "done"]
  /\ field "args" (console_message calm_window LLog
                     [TArr [TVal (VNumber 3); TVal (VNumber 1); TVal (VNumber 2)];
                      TVal (VString "done")])
     = Some (TArr [TArr [TVal (VNumber 3); TVal (VNumber 1); TVal (VNumber 2)];
                   TVal (VString "done")]).
Proof.
  apply (interceptConsole_relays any_printer gallery calm_window LLog
           [VObject three_numbers; VString "done"]).
  - reflexivity.
  - reflexivity.
  - repeat constructor.
  - reflexivity.
Defined.

(** X14. When the relay fails, because an argument makes
    [serializeForPostMessage] raise or because posting throws, the catch
    clause calls the saved method a second time: the page's output appears
    twice, followed by a report on [console.error]. *)
Theorem interceptConsole_repeats_output_on_failure
    Number_toString h w l args e calls :
  (forall l' printed_args, original_completes w l' printed_args = Normal tt) ->
  (serialize_args Number_toString h args = Some (Throw e) ->
   interceptConsole Number_toString h w l args calls
   = Some (Normal tt,
           (calls ++ [ConsoleCall l (map PValue args);
                      ConsoleCall l (map PValue args);
                      ConsoleCall LError
                        [PValue (VString "Console interception error:"); PThrown e]])%list))
  /\ (forall ts,
        serialize_args Number_toString h args = Some (Normal ts) ->
        framed w = true ->
        postMessage_completes w (console_message w l ts) = Throw e ->
        interceptConsole Number_toString h w l args calls
        = Some (Normal tt,
                (calls ++ [ConsoleCall l (map PValue args);
                           PostMessage (console_message w l ts);
                           ConsoleCall l (map PValue args);
                           ConsoleCall LError
                             [PValue (VString "Console interception error:");
                              PThrown e]])%list)).
Proof.
  intros Hconsole. split.
  - intros Hargs.
    unfold interceptConsole, try_catch, hbind, call_original, postMessage, call, hlift, hret.
    rewrite !Hconsole, Hargs. cbv beta iota. rewrite !Hconsole.
    now rewrite <- !app_assoc.
  - intros ts Hargs Hframed Hpost.
    unfold interceptConsole, try_catch, hbind, call_original, postMessage, call, hlift, hret.
    rewrite !Hconsole, Hargs, Hframed, Hpost. cbv beta iota. rewrite !Hconsole.
    now rewrite <- !app_assoc.
Qed.

(** Witness of [interceptConsole_repeats_output_on_failure]: logging
    [[new Date(NaN), Object.create(null)]], on which
    [serializeForPostMessage] raises. *)
Lemma interceptConsole_repeats_output_on_failure_witness :
  interceptConsole any_printer page calm_window LLog [VObject date_and_dictionary] []
  = Some (Normal tt,
          ([] ++ [ConsoleCall LLog (map PValue [VObject date_and_dictionary]);
                  ConsoleCall LLog (map PValue [VObject date_and_dictionary]);
                  ConsoleCall LError
                    [PValue (VString "Console interception error:");
                     PThrown (NativeError "TypeError"
                                "Cannot convert object to primitive value")]])%list).
Proof.
  apply (proj1 (interceptConsole_repeats_output_on_failure any_printer page calm_window
                  LLog [VObject date_and_dictionary]
                  (NativeError "TypeError" "Cannot convert object to primitive value") []
                  (fun _ _ => eq_refl))).
  vm_compute. reflexivity.
Defined.

(** Witness of [interceptConsole_never_raises]: a window whose console
    accepts every call, logging the array on which the serializer raises. *)
Lemma interceptConsole_never_raises_witness :
  exists calls',
    interceptConsole any_printer page calm_window LWarn [VObject date_and_dictionary] []
    = Some (Normal tt, calls').
Proof.
  apply (interceptConsole_never_raises any_printer page calm_window LWarn
           [VObject date_and_dictionary] []).
  intros l' printed_args. reflexivity.
Defined.

(** ** The call site *)

Lemma split_lines_line (line : string) :
  contains_newline line = false -> split_lines line = [line].
Proof.
  induction line as [|c line IH]; [reflexivity |]. simpl.
  destruct (Ascii.eqb c newline); [discriminate |]. simpl.
  intros Hline. now rewrite (IH Hline).
Qed.

Lemma split_lines_break (line rest : string) :
  contains_newline line = false ->
  split_lines (line ++ String newline rest) = line :: split_lines rest.
Proof.
  induction line as [|c line IH].
  - intros _. change (split_lines (String newline rest) = "" :: split_lines rest).
    cbn [split_lines]. now rewrite Ascii.eqb_refl.
  - simpl. destruct (Ascii.eqb c newline) eqn:E; [discriminate |]. simpl.
    intros Hline. now rewrite (IH Hline).
Qed.

Lemma split_lines_pieces (s : string) :
  Forall (fun line => contains_newline line = false) (split_lines s).
Proof.
  induction s as [|c s IH]; simpl; [repeat constructor |].
  destruct (Ascii.eqb c newline) eqn:E; [now constructor |].
  destruct (split_lines s) as [|line lines]; [repeat constructor; simpl; now rewrite E |].
  inversion IH as [|? ? Hline Hlines]; subst.
  constructor; [simpl; now rewrite E | exact Hlines].
Qed.

(** X15. The call site put in a message is the third line of the stack of a
    fresh error, whatever follows it, and the empty string when the stack
    has fewer than three lines; it never holds a line break. *)
Theorem callSite_is_third_line (line0 line1 line2 rest : string) :
  contains_newline line0 = false ->
  contains_newline line1 = false ->
  contains_newline line2 = false ->
  callSite_of (line0 ++ String newline (line1 ++ String newline (line2
                 ++ String newline rest))) = line2
  /\ callSite_of (line0 ++ String newline (line1 ++ String newline line2)) = line2
  /\ callSite_of (line0 ++ String newline line1) = ""
  /\ callSite_of line0 = ""
  /\ forall stack, contains_newline (callSite_of stack) = false.
Proof.
  intros H0 H1 H2. unfold callSite_of.
  repeat split.
  - now rewrite !split_lines_break by assumption.
  - rewrite !split_lines_break by assumption. now rewrite split_lines_line.
  - rewrite split_lines_break by assumption. now rewrite split_lines_line.
  - now rewrite split_lines_line.
  - intros stack. pose proof (split_lines_pieces stack) as Hall.
    destruct (split_lines stack) as [|l0 [|l1 [|l2 lines]]]; try reflexivity.
    inversion Hall as [|? ? _ Hall1]; subst.
    inversion Hall1 as [|? ? _ Hall2]; subst.
    now inversion Hall2.
Qed.

(** Witness of [callSite_is_third_line]: the stack of the sample window. *)
Lemma callSite_is_third_line_witness :
  callSite_of (error_stack calm_window) = "    at main (app.js:3:9)".
Proof.
  apply (proj1 (proj2 (callSite_is_third_line "Error"
                  "    at console.log (relay.js:158:31)" "    at main (app.js:3:9)" ""
                  eq_refl eq_refl eq_refl))).
Defined.

(** ** The listeners *)




(** X17. Events without a payload are relayed as they are: inside a frame whose
    parent accepts the message, an [error] event whose [error] is null (as
    for a script of another origin) posts one message with [error: null],
    and a rejection without a reason posts one with [reason: undefined];
    neither touches the console. *)
Theorem events_without_payload_are_relayed Number_toString h w event calls :
  framed w = true ->
  (forall message, postMessage_completes w message = Normal tt) ->
  ev_error event = VNull ->
  on_error Number_toString h w event calls
  = Some (Normal tt, (calls ++ [PostMessage (error_message w event (TVal VNull))])%list)
  /\ on_unhandledrejection Number_toString h w VUndefined calls
     = Some (Normal tt,
             (calls ++ [PostMessage (rejection_message w (TVal VUndefined))])%list).
Proof.
  intros Hframed Hpost Hnull.
  unfold on_error, on_unhandledrejection, try_catch, hbind, postMessage, call, hlift.
  rewrite Hnull, Hframed.
  assert (Hn : serializeForPostMessage_default Number_toString h VNull
               = Some (Normal (TVal VNull))) by reflexivity.
  assert (Hu : serializeForPostMessage_default Number_toString h VUndefined
               = Some (Normal (TVal VUndefined))) by reflexivity.
  rewrite Hn, Hu, !Hpost. split; reflexivity.
Qed.

(** Witness of [events_without_payload_are_relayed]: a 'Script error.'
    event in the sample window. *)
Lemma events_without_payload_are_relayed_witness :
  on_error any_printer page calm_window
    {| ev_error := VNull; ev_message := VString "Script error.";
       ev_filename := VString ""; ev_lineno := VNumber 0; ev_colno := VNumber 0 |} []
  = Some (Normal tt,
          ([] ++ [PostMessage
                    (error_message calm_window
                       {| ev_error := VNull; ev_message := VString "Script error.";
                          ev_filename := VString ""; ev_lineno := VNumber 0;
                          ev_colno := VNumber 0 |} (TVal VNull))])%list).
Proof.
  apply (proj1 (events_without_payload_are_relayed any_printer page calm_window
                  {| ev_error := VNull; ev_message := VString "Script error.";
                     ev_filename := VString ""; ev_lineno := VNumber 0;
                     ev_colno := VNumber 0 |} [] eq_refl (fun _ => eq_refl) eq_refl)).
Defined.
